(** * The rule buffer of styled-components: [sheet/Tag.js]

    A shallow embedding of the three [Tag] classes of [sheet/Tag.js]
    ([CSSOMTag], [TextTag], [VirtualTag]) and of the selector [makeTag],
    together with the properties of the rule-buffer contract.

    Conventions of the embedding:
    - a JavaScript [number] used as an index or a counter is an integer of [Z];
    - a method is a function of the receiver [this] that returns its result
      together with the receiver after the call; a call that can raise
      returns a [completion];
    - a JavaScript array and a DOM child list are Rocq lists. *)

From Stdlib Require Import ZArith Lia.
From stdpp Require Import base list strings.

Open Scope Z_scope.

(** ** JavaScript prelude *)

(** What [getRule] can hand back: the source annotates [string], but an
    array read outside the populated indices yields [undefined]. *)
Inductive value : Type :=
  | Undefined
  | Str (s : string).

Inductive error : Type :=
  | TypeError
  | SyntaxError
  | IndexSizeError
  | NotFoundError
  | HierarchyRequestError
  | QuotaExceededError.

(** Outcome of a call that may raise. *)
Inductive completion (A : Type) : Type :=
  | Normal (a : A)
  | Throw (e : error).
Arguments Normal {A} a.
Arguments Throw {A} e.

Section Array.
Context {A : Type}.

(** [a.length] *)
Definition arrayLength (a : list A) : Z := Z.of_nat (length a).

(** [a[index]] for an integer index: [None] stands for [undefined].  The
    same indexed read serves arrays, [NodeList]s and [CSSRuleList]s. *)
Definition item (a : list A) (index : Z) : option A :=
  if index <? 0 then None else a !! Z.to_nat index.

(** [a.splice(start, deleteCount, ...items)], the array after the call.
    A negative [start] counts from the end and is clamped at 0, a [start]
    beyond the end is clamped at the length, and [deleteCount] is clamped
    to the elements that remain after the start. *)
Definition splice (a : list A) (start deleteCount : Z) (items : list A) : list A :=
  let len := arrayLength a in
  let actualStart :=
    if start <? 0 then Z.max (len + start) 0 else Z.min start len in
  let actualDeleteCount := Z.min (Z.max deleteCount 0) (len - actualStart) in
  take (Z.to_nat actualStart) a ++ items
    ++ drop (Z.to_nat (actualStart + actualDeleteCount)) a.
End Array.

(** An element of the page, as far as the buffer is concerned: something a
    style container can be provisioned under. *)
Inductive HTMLElement : Type :=
  | htmlElement (id : nat).

(** ** [VirtualTag]: the list-backed variant *)

Module VirtualTag.

Record t : Type := mk { rules : list string; length : Z }.

Definition new (_target : option HTMLElement) : t :=
  {| rules := []; length := 0 |}.

Definition insertRule (index : Z) (rule : string) (this : t) : bool * t :=
  if index <=? length this then
    (true, {| rules := splice (rules this) index 0 [rule];
              length := length this + 1 |})
  else
    (false, this).

(** The [for] loop of [insertRules], over the rules that remain. *)
Fixpoint insertRules_loop (rules : list string) (insertCount ruleIndex : Z)
    (this : t) : Z * t :=
  match rules with
  | [] => (insertCount, this)
  | rule :: rest =>
      let (ok, this') := insertRule ruleIndex rule this in
      if ok then insertRules_loop rest (insertCount + 1) (ruleIndex + 1) this'
      else insertRules_loop rest insertCount ruleIndex this'
  end.

Definition insertRules (startRuleIndex : Z) (rules : list string) (this : t)
    : Z * t :=
  insertRules_loop rules 0 startRuleIndex this.

Definition deleteRule (index : Z) (this : t) : t :=
  {| rules := splice (rules this) index 1 []; length := length this - 1 |}.

Definition getRule (index : Z) (this : t) : value :=
  if index <? length this then
    match item (rules this) index with
    | Some rule => Str rule
    | None => Undefined
    end
  else
    Str EmptyString.

End VirtualTag.

(** ** The DOM the node-backed variant works on *)

Module DOM.

(** A text node: its identity and its text.  Two nodes are the same node
    when they have the same identity, whatever their text. *)
Record Node : Type := mkNode { nodeId : nat; textContent : string }.

(** [document.createTextNode(data)]: a node nobody holds yet.  The
    document is represented by the next unused identity. *)
Definition createTextNode (data : string) (document : nat) : Node * nat :=
  ({| nodeId := document; textContent := data |}, S document).

Definition sameNode (a b : Node) : bool := Nat.eqb (nodeId a) (nodeId b).

(** Position of [child] among [children]. *)
Fixpoint indexOf (child : Node) (children : list Node) : option nat :=
  match children with
  | [] => None
  | c :: rest =>
      if sameNode c child then Some 0%nat else S <$> indexOf child rest
  end.

(** [parent.insertBefore(node, child)] on the children of [parent].
    [nodes] is what gets inserted: the node itself, or the children of a
    [DocumentFragment], which are moved as one group.  A [null] (or
    [undefined]) [child] appends; a [child] that is not under [parent]
    raises. *)
Definition insertBefore (nodes : list Node) (child : option Node)
    (children : list Node) : completion (list Node) :=
  match child with
  | None => Normal (children ++ nodes)
  | Some c =>
      match indexOf c children with
      | Some k => Normal (take k children ++ nodes ++ drop k children)
      | None => Throw NotFoundError
      end
  end.

(** [parent.removeChild(child)]: [undefined] is not a node. *)
Definition removeChild (child : option Node) (children : list Node)
    : completion (list Node) :=
  match child with
  | None => Throw TypeError
  | Some c =>
      match indexOf c children with
      | Some k => Normal (delete k children)
      | None => Throw NotFoundError
      end
  end.

End DOM.

(** ** [TextTag]: the node-backed variant *)

Module TextTag.

(** [nodes] is [element.childNodes], a live view: the field stands for the
    children of [element] themselves.  [document] is the ambient document
    the methods create their text nodes in, as far as this element sees it:
    the identities it has handed out. *)
Record t : Type := mk { document : nat; nodes : list DOM.Node; length : Z }.

(** Modelled from the spec: [makeStyleTag] of [./dom] is not under src/;
    the container it provisions is a newly created element, which has no
    child node yet. *)
Definition new (target : option HTMLElement) : t :=
  {| document := 0%nat; nodes := []; length := 0 |}.

Definition insertRule (index : Z) (rule : string) (this : t)
    : completion bool * t :=
  if (index <=? length this) && (index >=? 0) then
    let (node, document') := DOM.createTextNode rule (document this) in
    let refNode := item (nodes this) index in
    match DOM.insertBefore [node] refNode (nodes this) with
    | Normal children =>
        (Normal true,
         {| document := document'; nodes := children;
            length := length this + 1 |})
    | Throw e =>
        (Throw e,
         {| document := document'; nodes := nodes this;
            length := length this |})
    end
  else
    (Normal false, this).

(** The [for] loop of [insertRules]: it fills the detached fragment, whose
    children are [fragmentNodes]. *)
Fixpoint insertRules_loop (rules : list string) (i : Z)
    (fragmentNodes : list DOM.Node) (document : nat)
    : completion (list DOM.Node) * nat :=
  match rules with
  | [] => (Normal fragmentNodes, document)
  | rule :: rest =>
      let (node, document') := DOM.createTextNode rule document in
      let refNode := item fragmentNodes i in
      match DOM.insertBefore [node] refNode fragmentNodes with
      | Normal fragmentNodes' =>
          insertRules_loop rest (i + 1) fragmentNodes' document'
      | Throw e => (Throw e, document')
      end
  end.

Definition insertRules (startRuleIndex : Z) (rules : list string) (this : t)
    : completion Z * t :=
  match insertRules_loop rules 0 [] (document this) with
  | (Normal fragmentNodes, document') =>
      let elementRefNode := item (nodes this) startRuleIndex in
      let insertCount := arrayLength fragmentNodes in
      match DOM.insertBefore fragmentNodes elementRefNode (nodes this) with
      | Normal children =>
          (Normal insertCount,
           {| document := document'; nodes := children;
              length := length this + insertCount |})
      | Throw e =>
          (Throw e,
           {| document := document'; nodes := nodes this;
              length := length this |})
      end
  | (Throw e, document') =>
      (Throw e,
       {| document := document'; nodes := nodes this;
          length := length this |})
  end.

Definition deleteRule (index : Z) (this : t) : completion unit * t :=
  match DOM.removeChild (item (nodes this) index) (nodes this) with
  | Normal children =>
      (Normal tt,
       {| document := document this; nodes := children;
          length := length this - 1 |})
  | Throw e => (Throw e, this)
  end.

(** [this.nodes[index].textContent] raises when [this.nodes[index]] is
    [undefined]. *)
Definition getRule (index : Z) (this : t) : completion value :=
  if index <? length this then
    match item (nodes this) index with
    | Some node => Normal (Str (DOM.textContent node))
    | None => Throw TypeError
    end
  else
    Normal (Str EmptyString).

End TextTag.

(** ** The native rule engine *)

(** The [CSSStyleSheet] the engine-backed variant delegates to belongs to
    the hosting environment.  It is modelled after the interface the code
    calls.  [insertRule(rule, index)] takes its index as an
    [unsigned long]: the number passed is reduced modulo 2^32.  It raises
    when the converted index is beyond the end of the rule list, and when
    the engine refuses the rule there: the text does not parse, or a rule
    of that kind may not stand at that place among the rules of the sheet.
    Otherwise it stores the rule object at the converted index.
    [deleteRule(index)] converts its index the same way and raises unless
    a rule is stored there.  Either call changes nothing when it raises.
    What the engine makes of a rule text is a parameter. *)
Module CSSOM.

(** A rule object.  [cssText] is [None] when reading it does not give a
    string (the IE11 quirk the source guards against). *)
Record CSSRule : Type := mkRule { cssText : option string }.

(** The engine's verdict on a rule text offered for a position of a rule
    list: the rule object it stores, or the error it raises. *)
Definition Engine : Type := list CSSRule -> Z -> string -> completion CSSRule.

(** An integer passed for an [unsigned long]. *)
Definition toUnsignedLong (index : Z) : Z := index mod 4294967296.

(** The [length] of a rule list is an [unsigned long] too: a list holds
    at most 2^32 - 1 rules, and a full list takes no further rule. *)
Definition maxRules : Z := 4294967295.

Section Engine.
Variable engine : Engine.

Definition insertRule (rule : string) (index : Z) (cssRules : list CSSRule)
    : completion (list CSSRule) :=
  let position := toUnsignedLong index in
  if position <=? arrayLength cssRules then
    if arrayLength cssRules <? maxRules then
      match engine cssRules position rule with
      | Normal parsed =>
          Normal (take (Z.to_nat position) cssRules ++ parsed
                    :: drop (Z.to_nat position) cssRules)
      | Throw e => Throw e
      end
    else
      Throw QuotaExceededError
  else
    Throw IndexSizeError.

Definition deleteRule (index : Z) (cssRules : list CSSRule)
    : completion (list CSSRule) :=
  let position := toUnsignedLong index in
  if position <? arrayLength cssRules then
    Normal (delete (Z.to_nat position) cssRules)
  else
    Throw IndexSizeError.
End Engine.

End CSSOM.

(** ** [CSSOMTag]: the engine-backed variant *)

Module CSSOMTag.

(** [sheet] is the rule list [sheet.cssRules] of the native sheet.  The
    [element] field is only used by the constructor. *)
Record t : Type := mk { sheet : list CSSOM.CSSRule; length : Z }.

(** Modelled from the spec: [makeStyleTag] and [getSheet] of [./dom] are
    not under src/; the engine handle acquired for the newly provisioned
    container holds no rule (the empty text node the constructor appends
    contributes none). *)
Definition new (target : option HTMLElement) : t :=
  {| sheet := []; length := 0 |}.

Section Engine.
Variable engine : CSSOM.Engine.

(** The whole body sits in [try]; [catch] answers [false]. *)
Definition insertRule (index : Z) (rule : string) (this : t) : bool * t :=
  match CSSOM.insertRule engine rule index (sheet this) with
  | Normal cssRules =>
      (true, {| sheet := cssRules; length := length this + 1 |})
  | Throw _error => (false, this)
  end.

Fixpoint insertRules_loop (rules : list string) (insertCount ruleIndex : Z)
    (this : t) : Z * t :=
  match rules with
  | [] => (insertCount, this)
  | rule :: rest =>
      let (ok, this') := insertRule ruleIndex rule this in
      if ok then
        insertRules_loop rest (insertCount + 1) (ruleIndex + 1) this'
      else
        insertRules_loop rest insertCount ruleIndex this'
  end.

Definition insertRules (startRuleIndex : Z) (rules : list string) (this : t)
    : Z * t :=
  insertRules_loop rules 0 startRuleIndex this.
End Engine.

Definition deleteRule (index : Z) (this : t) : completion unit * t :=
  match CSSOM.deleteRule index (sheet this) with
  | Normal cssRules =>
      (Normal tt, {| sheet := cssRules; length := length this - 1 |})
  | Throw e => (Throw e, this)
  end.

Definition getRule (index : Z) (this : t) : value :=
  match item (sheet this) index with
  | Some rule =>
      match CSSOM.cssText rule with
      | Some text => Str text
      | None => Str EmptyString
      end
  | None => Str EmptyString
  end.

End CSSOMTag.

(** ** The [Tag] contract and [makeTag] *)

Record SheetOptions : Type := mkOptions {
  isServer : bool;
  useCSSOMInjection : bool;
  target : option HTMLElement
}.

(** A value of the interface [Tag] is an instance of one of the three
    classes; a method call on it dispatches on the class. *)
Module Tag.

Inductive t : Type :=
  | CSSOM (tag : CSSOMTag.t)
  | Text (tag : TextTag.t)
  | Virtual (tag : VirtualTag.t).

Definition length (this : t) : Z :=
  match this with
  | CSSOM tag => CSSOMTag.length tag
  | Text tag => TextTag.length tag
  | Virtual tag => VirtualTag.length tag
  end.

Section Engine.
Variable engine : CSSOM.Engine.

Definition insertRule (index : Z) (rule : string) (this : t)
    : completion bool * t :=
  match this with
  | CSSOM tag =>
      let (ok, tag') := CSSOMTag.insertRule engine index rule tag in
      (Normal ok, CSSOM tag')
  | Text tag =>
      let (ok, tag') := TextTag.insertRule index rule tag in (ok, Text tag')
  | Virtual tag =>
      let (ok, tag') := VirtualTag.insertRule index rule tag in
      (Normal ok, Virtual tag')
  end.

Definition insertRules (startRuleIndex : Z) (rules : list string) (this : t)
    : completion Z * t :=
  match this with
  | CSSOM tag =>
      let (n, tag') := CSSOMTag.insertRules engine startRuleIndex rules tag in
      (Normal n, CSSOM tag')
  | Text tag =>
      let (n, tag') := TextTag.insertRules startRuleIndex rules tag in
      (n, Text tag')
  | Virtual tag =>
      let (n, tag') := VirtualTag.insertRules startRuleIndex rules tag in
      (Normal n, Virtual tag')
  end.
End Engine.

Definition deleteRule (index : Z) (this : t) : completion unit * t :=
  match this with
  | CSSOM tag =>
      let (c, tag') := CSSOMTag.deleteRule index tag in (c, CSSOM tag')
  | Text tag =>
      let (c, tag') := TextTag.deleteRule index tag in (c, Text tag')
  | Virtual tag => (Normal tt, Virtual (VirtualTag.deleteRule index tag))
  end.

Definition getRule (index : Z) (this : t) : completion value :=
  match this with
  | CSSOM tag => Normal (CSSOMTag.getRule index tag)
  | Text tag => TextTag.getRule index tag
  | Virtual tag => Normal (VirtualTag.getRule index tag)
  end.

(** Which of the three classes an instance belongs to. *)
Inductive variant : Type :=
  | EngineBacked
  | NodeBacked
  | ListBacked.

Definition variantOf (this : t) : variant :=
  match this with
  | CSSOM _ => EngineBacked
  | Text _ => NodeBacked
  | Virtual _ => ListBacked
  end.

(** The position of the store an index designates to [insertRule] and
    [deleteRule]: the index itself, which the engine-backed variant hands
    to the engine, where it is reduced modulo 2^32.  (On the list-backed
    variant this is so for an index that is not negative.) *)
Definition position (this : t) (index : Z) : Z :=
  match this with
  | CSSOM _ => CSSOM.toUnsignedLong index
  | _ => index
  end.

(** The text under which a rule handed to [insertRule] sits in the store:
    the rule itself, except on the engine-backed variant, which keeps the
    text of the rule object the engine made of it. *)
Definition readBack (engine : CSSOM.Engine) (this : t) (index : Z)
    (rule : string) : string :=
  match this with
  | CSSOM tag =>
      match engine (CSSOMTag.sheet tag) (CSSOM.toUnsignedLong index) rule with
      | Normal parsed => default EmptyString (CSSOM.cssText parsed)
      | Throw _ => EmptyString
      end
  | _ => rule
  end.

(** The physical store, as the texts [getRule] serialises its entries to. *)
Definition stored (this : t) : list string :=
  match this with
  | CSSOM tag =>
      (fun rule => default EmptyString (CSSOM.cssText rule))
        <$> CSSOMTag.sheet tag
  | Text tag => DOM.textContent <$> TextTag.nodes tag
  | Virtual tag => VirtualTag.rules tag
  end.

End Tag.

Definition makeTag (options : SheetOptions) : Tag.t :=
  if isServer options then
    Tag.Virtual (VirtualTag.new (target options))
  else if useCSSOMInjection options then
    Tag.CSSOM (CSSOMTag.new (target options))
  else
    Tag.Text (TextTag.new (target options)).

(** ** Sequences of contract operations *)

Inductive op : Type :=
  | InsertRule (index : Z) (rule : string)
  | InsertRules (startRuleIndex : Z) (rules : list string)
  | DeleteRule (index : Z)
  | GetRule (index : Z).

Section Run.
Variable engine : CSSOM.Engine.

(** The Tag after one operation.  A call that raises leaves the Tag as it
    was when it raised, and the caller goes on with it. *)
Definition apply (o : op) (tag : Tag.t) : Tag.t :=
  match o with
  | InsertRule index rule => snd (Tag.insertRule engine index rule tag)
  | InsertRules start rules => snd (Tag.insertRules engine start rules tag)
  | DeleteRule index => snd (Tag.deleteRule index tag)
  | GetRule _ => tag
  end.

(** Inserts the operation reports as successful. *)
Definition inserted (o : op) (tag : Tag.t) : Z :=
  match o with
  | InsertRule index rule =>
      match fst (Tag.insertRule engine index rule tag) with
      | Normal true => 1
      | _ => 0
      end
  | InsertRules start rules =>
      match fst (Tag.insertRules engine start rules tag) with
      | Normal n => n
      | Throw _ => 0
      end
  | _ => 0
  end.

(** Deletes the operation performs. *)
Definition deleted (o : op) (tag : Tag.t) : Z :=
  match o with
  | DeleteRule index =>
      match fst (Tag.deleteRule index tag) with
      | Normal _ => 1
      | Throw _ => 0
      end
  | _ => 0
  end.

Fixpoint run (ops : list op) (tag : Tag.t) : Tag.t :=
  match ops with
  | [] => tag
  | o :: rest => run rest (apply o tag)
  end.


Fixpoint insertedBy (ops : list op) (tag : Tag.t) : Z :=
  match ops with
  | [] => 0
  | o :: rest => inserted o tag + insertedBy rest (apply o tag)
  end.

Fixpoint deletedBy (ops : list op) (tag : Tag.t) : Z :=
  match ops with
  | [] => 0
  | o :: rest => deleted o tag + deletedBy rest (apply o tag)
  end.

Definition isDelete (o : op) : bool :=
  match o with
  | DeleteRule _ => true
  | _ => false
  end.


(** The precondition of an operation: [0 <= index < length] for
    [deleteRule], none for the others. *)
Definition precondition (o : op) (tag : Tag.t) : Prop :=
  match o with
  | DeleteRule index => 0 <= index < Tag.length tag
  | _ => True
  end.

(** Each [deleteRule] of the sequence meets its precondition in the state
    it is called in. *)
Fixpoint deletesInRange (ops : list op) (tag : Tag.t) : Prop :=
  match ops with
  | [] => True
  | o :: rest => precondition o tag /\ deletesInRange rest (apply o tag)
  end.

#[global] Instance precondition_dec o tag : Decision (precondition o tag).
Proof. destruct o; simpl; apply _. Defined.

#[global] Instance deletesInRange_dec ops tag :
  Decision (deletesInRange ops tag).
Proof. revert tag. induction ops; intros tag; simpl; apply _. Defined.

(** A state some sequence of operations leads to from a new Tag. *)
Definition reachable (tag : Tag.t) : Prop :=
  exists options ops, run ops (makeTag options) = tag.

(** A batch read as sequential inserts: one [insertRule] call per rule,
    the first at [index] and each next one at the next higher index.  The
    state after the last call. *)
Fixpoint insertRule_each (index : Z) (rules : list string) (tag : Tag.t)
    : Tag.t :=
  match rules with
  | [] => tag
  | rule :: rest =>
      insertRule_each (index + 1) rest
        (snd (Tag.insertRule engine index rule tag))
  end.

End Run.

(** The text nodes [createTextNode] makes for [rules], from the identity
    [document] on. *)
Fixpoint textNodes (document : nat) (rules : list string) : list DOM.Node :=
  match rules with
  | [] => []
  | rule :: rest => DOM.mkNode document rule :: textNodes (S document) rest
  end.

(** ** Engines to run examples on *)

(** An engine that takes every rule and serialises it as it was given. *)
Definition verbatimEngine : CSSOM.Engine :=
  fun _ _ rule => Normal {| CSSOM.cssText := Some rule |}.

(** A strict parser: as [verbatimEngine], but it rejects the text
    [not valid css]. *)
Definition strictEngine : CSSOM.Engine :=
  fun _ _ rule =>
    if String.eqb rule "not valid css" then Throw SyntaxError
    else Normal {| CSSOM.cssText := Some rule |}.

(** An engine that serialises a rule in its own spelling: it gives
    [a { color: red; }] for [a{color:red}]. *)
Definition serialisingEngine : CSSOM.Engine :=
  fun _ _ rule =>
    Normal {| CSSOM.cssText :=
                Some (if String.eqb rule "a{color:red}"
                      then "a { color: red; }" else rule) |}.

(** An engine whose rule objects do not give their text (the quirk
    [CSSOMTag.getRule] guards against). *)
Definition opaqueEngine : CSSOM.Engine :=
  fun _ _ rule => Normal {| CSSOM.cssText := None |}.



(** ** Invariants of the three variants *)

(** Identities of the children are pairwise distinct and were all handed
    out by the document already. *)
Definition distinctNodes (document : nat) (children : list DOM.Node) : Prop :=
  NoDup (DOM.nodeId <$> children)
  /\ Forall (fun node => (DOM.nodeId node < document)%nat) children.

(** What holds of a Tag whatever its caller does: the counter of the engine-
    and node-backed variants is the size of their store (which, in the
    engine, stays within what a rule list holds); the counter of the
    list-backed variant never exceeds it. *)
Definition consistent (tag : Tag.t) : Prop :=
  match tag with
  | Tag.CSSOM this =>
      CSSOMTag.length this = arrayLength (CSSOMTag.sheet this)
      /\ arrayLength (CSSOMTag.sheet this) <= CSSOM.maxRules
  | Tag.Text this =>
      TextTag.length this = arrayLength (TextTag.nodes this)
      /\ distinctNodes (TextTag.document this) (TextTag.nodes this)
  | Tag.Virtual this =>
      VirtualTag.length this <= arrayLength (VirtualTag.rules this)
  end.


(** * Properties *)

(** ** Arrays *)

Section ArrayFacts.
Context {A : Type}.
Implicit Types (a items : list A) (index : Z) (k j : nat).

Lemma arrayLength_nonneg a : 0 <= arrayLength a.
Proof. unfold arrayLength. lia. Qed.

Lemma arrayLength_app a items :
  arrayLength (a ++ items) = arrayLength a + arrayLength items.
Proof. unfold arrayLength. rewrite length_app. lia. Qed.

Lemma item_lookup a index : 0 <= index -> item a index = a !! Z.to_nat index.
Proof.
  intros Hindex. unfold item.
  destruct (Z.ltb_spec index 0); [lia | reflexivity].
Qed.

Lemma item_negative a index : index < 0 -> item a index = None.
Proof.
  intros Hindex. unfold item.
  destruct (Z.ltb_spec index 0); [reflexivity | lia].
Qed.

Lemma item_beyond a index : arrayLength a <= index -> item a index = None.
Proof.
  intros Hindex. pose proof (arrayLength_nonneg a).
  rewrite item_lookup by lia.
  apply lookup_ge_None. unfold arrayLength in Hindex. lia.
Qed.

Lemma item_within a index :
  0 <= index < arrayLength a -> is_Some (item a index).
Proof.
  intros Hindex. rewrite item_lookup by lia.
  apply lookup_lt_is_Some. unfold arrayLength in Hindex. lia.
Qed.

Lemma item_Some_range a index x :
  item a index = Some x -> 0 <= index < arrayLength a.
Proof.
  intros Hitem.
  destruct (Z.ltb_spec index 0) as [Hneg | Hpos].
  - rewrite item_negative in Hitem by lia. discriminate.
  - rewrite item_lookup in Hitem by lia.
    apply lookup_lt_Some in Hitem. unfold arrayLength. lia.
Qed.

Lemma splice_insert a index items :
  0 <= index <= arrayLength a ->
  splice a index 0 items
  = take (Z.to_nat index) a ++ items ++ drop (Z.to_nat index) a.
Proof.
  intros Hindex. unfold splice.
  destruct (Z.ltb_spec index 0); [lia |].
  do 3 f_equal; lia.
Qed.

Lemma splice_insert_length a index items :
  arrayLength (splice a index 0 items) = arrayLength a + arrayLength items.
Proof.
  unfold splice, arrayLength.
  rewrite !length_app, length_take, length_drop.
  destruct (Z.ltb_spec index 0); lia.
Qed.

Lemma splice_delete a index :
  0 <= index < arrayLength a ->
  splice a index 1 [] = delete (Z.to_nat index) a.
Proof.
  intros Hindex. unfold splice.
  destruct (Z.ltb_spec index 0); [lia |].
  rewrite delete_take_drop. simpl. do 2 f_equal; lia.
Qed.

Lemma splice_delete_beyond a index :
  arrayLength a <= index -> splice a index 1 [] = a.
Proof.
  intros Hindex. pose proof (arrayLength_nonneg a). unfold splice.
  destruct (Z.ltb_spec index 0); [lia |]. simpl.
  replace (Z.to_nat (Z.min index (arrayLength a))) with (length a)
    by (unfold arrayLength in *; lia).
  replace (Z.to_nat _) with (length a) by (unfold arrayLength in *; lia).
  rewrite firstn_all, drop_all. apply app_nil_r.
Qed.

Lemma splice_delete_length a index :
  arrayLength a - 1 <= arrayLength (splice a index 1 []) <= arrayLength a.
Proof.
  unfold splice, arrayLength.
  rewrite !length_app, length_take, length_drop. simpl.
  destruct (Z.ltb_spec index 0); lia.
Qed.

Lemma arrayLength_delete a index :
  0 <= index < arrayLength a ->
  arrayLength (delete (Z.to_nat index) a) = arrayLength a - 1.
Proof.
  intros Hindex. unfold arrayLength in *.
  destruct (lookup_lt_is_Some_2 a (Z.to_nat index)) as [x Hx]; [lia |].
  rewrite length_delete; [lia | eauto].
Qed.

(** Reading a list after an insertion in the middle. *)
Lemma lookup_inserted a k x :
  (k <= length a)%nat -> (take k a ++ x :: drop k a) !! k = Some x.
Proof.
  intros Hk. rewrite lookup_app_r by (rewrite length_take; lia).
  rewrite length_take. replace (k - k `min` length a)%nat with 0%nat by lia.
  reflexivity.
Qed.

Lemma lookup_shifted a k j x :
  (k <= j)%nat -> (take k a ++ x :: drop k a) !! S j = a !! j.
Proof.
  intros Hk.
  destruct (decide (k <= length a)%nat) as [Hlen | Hlen].
  - rewrite lookup_app_r by (rewrite length_take; lia).
    rewrite length_take. replace (S j - k `min` length a)%nat with (S (j - k)) by lia.
    simpl. rewrite lookup_drop. f_equal. lia.
  - rewrite take_ge, drop_ge by lia.
    rewrite lookup_app_r by lia.
    rewrite !lookup_ge_None_2; [reflexivity | lia |].
    destruct (S j - length a)%nat eqn:E; [lia |]. simpl. lia.
Qed.

Lemma lookup_deleted a k j :
  (k <= j)%nat -> delete k a !! j = a !! S j.
Proof. intros Hk. apply list_lookup_delete_ge. lia. Qed.

Lemma take_inserted a k x :
  (k <= length a)%nat -> take (S k) (take k a ++ x :: drop k a) = take k a ++ [x].
Proof.
  intros Hk. rewrite (cons_middle x), app_assoc.
  apply take_app_length'. rewrite length_app, length_take. simpl. lia.
Qed.

Lemma drop_inserted a k x :
  (k <= length a)%nat -> drop (S k) (take k a ++ x :: drop k a) = drop k a.
Proof.
  intros Hk. rewrite (cons_middle x), app_assoc.
  apply drop_app_length'. rewrite length_app, length_take. simpl. lia.
Qed.

End ArrayFacts.

(** ** The list-backed variant *)

Section VirtualFacts.
Implicit Types (this : VirtualTag.t) (index : Z) (rule : string).

Lemma virtual_insertRule_accepts index rule this :
  index <= VirtualTag.length this ->
  VirtualTag.insertRule index rule this
  = (true, {| VirtualTag.rules := splice (VirtualTag.rules this) index 0 [rule];
              VirtualTag.length := VirtualTag.length this + 1 |}).
Proof.
  intros Hindex. unfold VirtualTag.insertRule.
  destruct (Z.leb_spec index (VirtualTag.length this)); [reflexivity | lia].
Qed.

Lemma virtual_insertRule_rejects index rule this :
  VirtualTag.length this < index ->
  VirtualTag.insertRule index rule this = (false, this).
Proof.
  intros Hindex. unfold VirtualTag.insertRule.
  destruct (Z.leb_spec index (VirtualTag.length this)); [lia | reflexivity].
Qed.

(** An insert moves the counter and the size of the list together. *)
Lemma virtual_insertRule_gap index rule this :
  let this' := snd (VirtualTag.insertRule index rule this) in
  arrayLength (VirtualTag.rules this') - VirtualTag.length this'
  = arrayLength (VirtualTag.rules this) - VirtualTag.length this.
Proof.
  unfold VirtualTag.insertRule.
  destruct (Z.leb_spec index (VirtualTag.length this)); simpl; [| reflexivity].
  rewrite splice_insert_length. unfold arrayLength. simpl. lia.
Qed.

Lemma virtual_insertRule_count index rule this :
  VirtualTag.length (snd (VirtualTag.insertRule index rule this))
  = VirtualTag.length this
    + (if fst (VirtualTag.insertRule index rule this) then 1 else 0).
Proof.
  unfold VirtualTag.insertRule.
  destruct (Z.leb_spec index (VirtualTag.length this)); simpl; lia.
Qed.

Lemma virtual_insertRules_loop_gap rules insertCount ruleIndex this :
  let this' :=
    snd (VirtualTag.insertRules_loop rules insertCount ruleIndex this) in
  arrayLength (VirtualTag.rules this') - VirtualTag.length this'
  = arrayLength (VirtualTag.rules this) - VirtualTag.length this.
Proof.
  revert insertCount ruleIndex this.
  induction rules as [| rule rest IH]; intros insertCount ruleIndex this;
    simpl; [reflexivity |].
  pose proof (virtual_insertRule_gap ruleIndex rule this) as Hgap.
  destruct (VirtualTag.insertRule ruleIndex rule this) as [ok this'].
  simpl in Hgap. destruct ok; rewrite IH; exact Hgap.
Qed.

Lemma virtual_insertRules_loop_count rules insertCount ruleIndex this :
  VirtualTag.length
    (snd (VirtualTag.insertRules_loop rules insertCount ruleIndex this))
  = VirtualTag.length this
    + (fst (VirtualTag.insertRules_loop rules insertCount ruleIndex this)
       - insertCount).
Proof.
  revert insertCount ruleIndex this.
  induction rules as [| rule rest IH]; intros insertCount ruleIndex this;
    simpl; [lia |].
  pose proof (virtual_insertRule_count ruleIndex rule this) as Hcount.
  destruct (VirtualTag.insertRule ruleIndex rule this) as [ok this'].
  simpl in Hcount. destruct ok; rewrite IH; lia.
Qed.

(** From an index the guard lets through, every rule of the batch gets in. *)
Lemma virtual_insertRules_loop_all rules insertCount ruleIndex this :
  ruleIndex <= VirtualTag.length this ->
  fst (VirtualTag.insertRules_loop rules insertCount ruleIndex this)
  = insertCount + arrayLength rules.
Proof.
  revert insertCount ruleIndex this.
  induction rules as [| rule rest IH]; intros insertCount ruleIndex this Hindex;
    simpl.
  - unfold arrayLength. simpl. lia.
  - rewrite virtual_insertRule_accepts by lia.
    rewrite IH by (simpl; lia).
    unfold arrayLength. simpl length. lia.
Qed.

(** Beyond the counter, none does. *)
Lemma virtual_insertRules_loop_none rules insertCount ruleIndex this :
  VirtualTag.length this < ruleIndex ->
  VirtualTag.insertRules_loop rules insertCount ruleIndex this
  = (insertCount, this).
Proof.
  intros Hindex.
  induction rules as [| rule rest IH]; simpl; [reflexivity |].
  rewrite virtual_insertRule_rejects by lia. exact IH.
Qed.

Lemma virtual_deleteRule_within index this :
  0 <= index < arrayLength (VirtualTag.rules this) ->
  VirtualTag.deleteRule index this
  = {| VirtualTag.rules := delete (Z.to_nat index) (VirtualTag.rules this);
       VirtualTag.length := VirtualTag.length this - 1 |}.
Proof.
  intros Hindex. unfold VirtualTag.deleteRule.
  rewrite splice_delete by lia. reflexivity.
Qed.

Lemma virtual_deleteRule_beyond index this :
  arrayLength (VirtualTag.rules this) <= index ->
  VirtualTag.deleteRule index this
  = {| VirtualTag.rules := VirtualTag.rules this;
       VirtualTag.length := VirtualTag.length this - 1 |}.
Proof.
  intros Hindex. unfold VirtualTag.deleteRule.
  rewrite splice_delete_beyond by lia. reflexivity.
Qed.

Lemma virtual_getRule_within index this :
  0 <= index < VirtualTag.length this ->
  VirtualTag.length this <= arrayLength (VirtualTag.rules this) ->
  exists rule,
    VirtualTag.rules this !! Z.to_nat index = Some rule
    /\ VirtualTag.getRule index this = Str rule.
Proof.
  intros Hindex Hlen. unfold VirtualTag.getRule.
  destruct (Z.ltb_spec index (VirtualTag.length this)); [| lia].
  destruct (item_within (VirtualTag.rules this) index) as [rule Hrule]; [lia |].
  rewrite Hrule. rewrite item_lookup in Hrule by lia. eauto.
Qed.

Lemma virtual_getRule_beyond index this :
  VirtualTag.length this <= index ->
  VirtualTag.getRule index this = Str EmptyString.
Proof.
  intros Hindex. unfold VirtualTag.getRule.
  destruct (Z.ltb_spec index (VirtualTag.length this)); [lia | reflexivity].
Qed.

End VirtualFacts.

(** ** The DOM *)

Section NodeFacts.
Implicit Types (children nodes : list DOM.Node) (c node : DOM.Node).
Implicit Types (document k : nat) (rules : list string).

(** Among children with distinct identities, a child is found where it is. *)
Lemma indexOf_lookup children k c :
  NoDup (DOM.nodeId <$> children) ->
  children !! k = Some c ->
  DOM.indexOf c children = Some k.
Proof.
  revert k. induction children as [| c0 rest IH]; intros k Hdistinct Hk.
  - discriminate.
  - rewrite fmap_cons in Hdistinct.
    apply NoDup_cons in Hdistinct as [Hfresh Hdistinct].
    simpl. unfold DOM.sameNode. destruct k as [| k]; simpl in Hk.
    + injection Hk as ->. rewrite Nat.eqb_refl. reflexivity.
    + destruct (Nat.eqb_spec (DOM.nodeId c0) (DOM.nodeId c)) as [Heq | Hne].
      * exfalso. apply Hfresh. rewrite Heq.
        apply list_elem_of_fmap. exists c. split; [reflexivity |].
        eapply list_elem_of_lookup_2. exact Hk.
      * rewrite (IH k) by assumption. reflexivity.
Qed.

Lemma textNodes_length document rules :
  length (textNodes document rules) = length rules.
Proof.
  revert document. induction rules as [| rule rest IH]; intros document; simpl;
    [reflexivity | by rewrite IH].
Qed.

Lemma textNodes_identities document rules :
  DOM.nodeId <$> textNodes document rules = seq document (length rules).
Proof.
  revert document. induction rules as [| rule rest IH]; intros document; simpl;
    [reflexivity |].
  f_equal. apply IH.
Qed.

Lemma textNodes_texts document rules :
  DOM.textContent <$> textNodes document rules = rules.
Proof.
  revert document. induction rules as [| rule rest IH]; intros document; simpl;
    [reflexivity |].
  f_equal. apply IH.
Qed.

Lemma textNodes_app document rules rules' :
  textNodes document (rules ++ rules')
  = textNodes document rules
      ++ textNodes (document + length rules) rules'.
Proof.
  revert document. induction rules as [| rule rest IH]; intros document; simpl.
  - by rewrite Nat.add_0_r.
  - rewrite IH. do 3 f_equal. lia.
Qed.

(** Attaching newly created nodes keeps the identities distinct. *)
Lemma distinctNodes_attach document children k rules :
  distinctNodes document children ->
  distinctNodes (document + length rules)
    (take k children ++ textNodes document rules ++ drop k children).
Proof.
  intros [Hdistinct Hknown]. split.
  - rewrite !fmap_app, fmap_take, fmap_drop, textNodes_identities.
    rewrite Permutation_app_swap_app, take_drop.
    apply NoDup_app. split; [apply NoDup_seq |]. split; [| assumption].
    intros x Hnew Hold. apply elem_of_seq in Hnew.
    apply list_elem_of_fmap in Hold as [node [-> Hnode]].
    rewrite Forall_forall in Hknown. specialize (Hknown node Hnode). lia.
  - rewrite !Forall_app. repeat split.
    + apply Forall_take. eapply Forall_impl; [exact Hknown |].
      simpl. intros; lia.
    + apply Forall_forall. intros node Hnode.
      assert (DOM.nodeId node ∈ seq document (length rules)) as Hin.
      { rewrite <- textNodes_identities. apply list_elem_of_fmap. eauto. }
      apply elem_of_seq in Hin. lia.
    + apply Forall_drop. eapply Forall_impl; [exact Hknown |].
      simpl. intros; lia.
Qed.

Lemma distinctNodes_delete document children k :
  distinctNodes document children ->
  distinctNodes document (delete k children).
Proof.
  intros [Hdistinct Hknown]. split.
  - rewrite list_fmap_delete.
    eapply sublist_NoDup; [exact Hdistinct | apply sublist_delete].
  - by apply Forall_delete.
Qed.

(** [insertBefore] with a reference read off the child list itself. *)
Lemma insertBefore_item nodes children index :
  NoDup (DOM.nodeId <$> children) ->
  DOM.insertBefore nodes (item children index) children
  = Normal
      (if (0 <=? index) && (index <? arrayLength children)
       then take (Z.to_nat index) children ++ nodes
              ++ drop (Z.to_nat index) children
       else children ++ nodes).
Proof.
  intros Hdistinct.
  destruct (Z.leb_spec 0 index) as [Hpos | Hneg];
    [destruct (Z.ltb_spec index (arrayLength children)) as [Hlt | Hge] |];
    simpl.
  - destruct (item_within children index) as [c Hc]; [lia |].
    rewrite Hc. rewrite item_lookup in Hc by lia. simpl.
    by rewrite (indexOf_lookup _ _ _ Hdistinct Hc).
  - by rewrite item_beyond.
  - by rewrite item_negative.
Qed.

Lemma removeChild_item children index :
  NoDup (DOM.nodeId <$> children) ->
  DOM.removeChild (item children index) children
  = if (0 <=? index) && (index <? arrayLength children)
    then Normal (delete (Z.to_nat index) children)
    else Throw TypeError.
Proof.
  intros Hdistinct.
  destruct (Z.leb_spec 0 index) as [Hpos | Hneg];
    [destruct (Z.ltb_spec index (arrayLength children)) as [Hlt | Hge] |];
    simpl.
  - destruct (item_within children index) as [c Hc]; [lia |].
    rewrite Hc. rewrite item_lookup in Hc by lia. simpl.
    by rewrite (indexOf_lookup _ _ _ Hdistinct Hc).
  - by rewrite item_beyond.
  - by rewrite item_negative.
Qed.

End NodeFacts.

(** ** The node-backed variant *)

Section TextFacts.
Implicit Types (this : TextTag.t) (index : Z) (rule : string).
Implicit Types (rules : list string).

Lemma text_insertRule_accepts index rule this :
  consistent (Tag.Text this) ->
  0 <= index <= TextTag.length this ->
  TextTag.insertRule index rule this
  = (Normal true,
     {| TextTag.document := S (TextTag.document this);
        TextTag.nodes :=
          take (Z.to_nat index) (TextTag.nodes this)
            ++ DOM.mkNode (TextTag.document this) rule
            :: drop (Z.to_nat index) (TextTag.nodes this);
        TextTag.length := TextTag.length this + 1 |}).
Proof.
  intros [Hlen [Hdistinct _]] Hindex. unfold TextTag.insertRule.
  rewrite Z.geb_leb.
  destruct (Z.leb_spec index (TextTag.length this)); [| lia].
  destruct (Z.leb_spec 0 index); [| lia].
  simpl. rewrite insertBefore_item by assumption.
  destruct (Z.leb_spec 0 index); [| lia].
  destruct (Z.ltb_spec index (arrayLength (TextTag.nodes this))); simpl;
    [reflexivity |].
  rewrite take_ge, drop_ge by (unfold arrayLength in *; lia).
  reflexivity.
Qed.

Lemma text_insertRule_rejects index rule this :
  ~ 0 <= index <= TextTag.length this ->
  TextTag.insertRule index rule this = (Normal false, this).
Proof.
  intros Hindex. unfold TextTag.insertRule. rewrite Z.geb_leb.
  destruct (Z.leb_spec index (TextTag.length this));
    destruct (Z.leb_spec 0 index); simpl; try reflexivity; lia.
Qed.

(** The loop appends: the fragment holds one node per rule, in order. *)
Lemma text_insertRules_loop rules fragmentNodes document :
  TextTag.insertRules_loop rules (arrayLength fragmentNodes) fragmentNodes
    document
  = (Normal (fragmentNodes ++ textNodes document rules),
     (document + length rules)%nat).
Proof.
  revert fragmentNodes document.
  induction rules as [| rule rest IH]; intros fragmentNodes document; simpl.
  - by rewrite app_nil_r, Nat.add_0_r.
  - rewrite item_beyond by lia. simpl.
    replace (arrayLength fragmentNodes + 1)
      with (arrayLength (fragmentNodes ++ [DOM.mkNode document rule]))
      by (rewrite arrayLength_app; reflexivity).
    rewrite IH, <- app_assoc. simpl. do 2 f_equal. lia.
Qed.

Lemma text_insertRules_fragment rules document :
  TextTag.insertRules_loop rules 0 [] document
  = (Normal (textNodes document rules), (document + length rules)%nat).
Proof. exact (text_insertRules_loop rules [] document). Qed.

Lemma text_insertRules startRuleIndex rules this :
  consistent (Tag.Text this) ->
  TextTag.insertRules startRuleIndex rules this
  = (Normal (arrayLength rules),
     {| TextTag.document := (TextTag.document this + length rules)%nat;
        TextTag.nodes :=
          if (0 <=? startRuleIndex) && (startRuleIndex <? TextTag.length this)
          then take (Z.to_nat startRuleIndex) (TextTag.nodes this)
                 ++ textNodes (TextTag.document this) rules
                 ++ drop (Z.to_nat startRuleIndex) (TextTag.nodes this)
          else TextTag.nodes this ++ textNodes (TextTag.document this) rules;
        TextTag.length := TextTag.length this + arrayLength rules |}).
Proof.
  intros [Hlen [Hdistinct _]]. unfold TextTag.insertRules.
  rewrite text_insertRules_fragment, insertBefore_item by assumption.
  rewrite Hlen.
  replace (arrayLength (textNodes (TextTag.document this) rules))
    with (arrayLength rules)
    by (unfold arrayLength; by rewrite textNodes_length).
  reflexivity.
Qed.

Lemma text_deleteRule index this :
  consistent (Tag.Text this) ->
  TextTag.deleteRule index this
  = if (0 <=? index) && (index <? TextTag.length this)
    then (Normal tt,
          {| TextTag.document := TextTag.document this;
             TextTag.nodes := delete (Z.to_nat index) (TextTag.nodes this);
             TextTag.length := TextTag.length this - 1 |})
    else (Throw TypeError, this).
Proof.
  intros [Hlen [Hdistinct _]]. unfold TextTag.deleteRule.
  rewrite removeChild_item by assumption. rewrite Hlen.
  by destruct ((0 <=? index) && (index <? arrayLength (TextTag.nodes this))).
Qed.

Lemma text_getRule index this :
  consistent (Tag.Text this) ->
  0 <= index ->
  TextTag.getRule index this
  = Normal (Str (default EmptyString
                   (Tag.stored (Tag.Text this) !! Z.to_nat index))).
Proof.
  intros [Hlen _] Hindex. unfold TextTag.getRule. simpl.
  rewrite list_lookup_fmap.
  destruct (Z.ltb_spec index (TextTag.length this)) as [Hlt | Hge].
  - destruct (item_within (TextTag.nodes this) index) as [node Hnode]; [lia |].
    rewrite Hnode. rewrite item_lookup in Hnode by lia. by rewrite Hnode.
  - rewrite lookup_ge_None_2; [reflexivity |].
    unfold arrayLength in Hlen. lia.
Qed.


Lemma text_getRule_negative index this :
  index < 0 ->
  0 <= TextTag.length this ->
  TextTag.getRule index this = Throw TypeError.
Proof.
  intros Hindex Hlen. unfold TextTag.getRule.
  destruct (Z.ltb_spec index (TextTag.length this)); [| lia].
  by rewrite item_negative.
Qed.

End TextFacts.

(** ** The engine-backed variant *)

Section IndexFacts.
Implicit Types (index : Z).

Lemma toUnsignedLong_range index :
  0 <= CSSOM.toUnsignedLong index <= CSSOM.maxRules.
Proof.
  unfold CSSOM.toUnsignedLong, CSSOM.maxRules.
  pose proof (Z.mod_pos_bound index 4294967296). lia.
Qed.

Lemma toUnsignedLong_small index :
  0 <= index <= CSSOM.maxRules -> CSSOM.toUnsignedLong index = index.
Proof.
  unfold CSSOM.toUnsignedLong, CSSOM.maxRules. intros Hindex.
  apply Z.mod_small. lia.
Qed.


End IndexFacts.

Section EngineFacts.
Variable engine : CSSOM.Engine.
Implicit Types (this : CSSOMTag.t) (index : Z) (rule : string).
Implicit Types (rules : list string).

Lemma cssom_insertRule index rule this :
  CSSOMTag.insertRule engine index rule this
  = let position := CSSOM.toUnsignedLong index in
    if (position <=? arrayLength (CSSOMTag.sheet this))
       && (arrayLength (CSSOMTag.sheet this) <? CSSOM.maxRules)
    then
      match engine (CSSOMTag.sheet this) position rule with
      | Normal parsed =>
          (true,
           {| CSSOMTag.sheet :=
                take (Z.to_nat position) (CSSOMTag.sheet this)
                  ++ parsed :: drop (Z.to_nat position) (CSSOMTag.sheet this);
              CSSOMTag.length := CSSOMTag.length this + 1 |})
      | Throw _ => (false, this)
      end
    else (false, this).
Proof.
  unfold CSSOMTag.insertRule, CSSOM.insertRule. cbn zeta.
  destruct (CSSOM.toUnsignedLong index <=? arrayLength (CSSOMTag.sheet this));
    [| reflexivity].
  destruct (arrayLength (CSSOMTag.sheet this) <? CSSOM.maxRules);
    [| reflexivity].
  cbn [andb]. by destruct (engine _ _ _).
Qed.

(** An insert moves the counter and the size of the rule list together,
    and leaves the list within what it may hold. *)
Lemma cssom_insertRule_count index rule this :
  let (ok, this') := CSSOMTag.insertRule engine index rule this in
  CSSOMTag.length this' = CSSOMTag.length this + (if ok then 1 else 0)
  /\ arrayLength (CSSOMTag.sheet this')
     = arrayLength (CSSOMTag.sheet this) + (if ok then 1 else 0)
  /\ (arrayLength (CSSOMTag.sheet this) <= CSSOM.maxRules ->
      arrayLength (CSSOMTag.sheet this') <= CSSOM.maxRules).
Proof.
  rewrite cssom_insertRule. cbn zeta.
  destruct (Z.leb_spec (CSSOM.toUnsignedLong index)
              (arrayLength (CSSOMTag.sheet this))); [| simpl; lia].
  destruct (Z.ltb_spec (arrayLength (CSSOMTag.sheet this)) CSSOM.maxRules);
    [| simpl; lia].
  cbn [andb]. destruct (engine _ _ _); [| lia].
  pose proof (toUnsignedLong_range index).
  assert (arrayLength
            (take (Z.to_nat (CSSOM.toUnsignedLong index)) (CSSOMTag.sheet this)
               ++ a :: drop (Z.to_nat (CSSOM.toUnsignedLong index))
                         (CSSOMTag.sheet this))
          = arrayLength (CSSOMTag.sheet this) + 1) as Hgrown.
  { unfold arrayLength in *. rewrite length_app, length_take. simpl.
    rewrite length_drop. lia. }
  cbn [CSSOMTag.sheet CSSOMTag.length]. rewrite Hgrown. lia.
Qed.

Lemma cssom_insertRules_loop_count rules insertCount ruleIndex this :
  let (n, this') :=
    CSSOMTag.insertRules_loop engine rules insertCount ruleIndex this in
  CSSOMTag.length this' = CSSOMTag.length this + (n - insertCount)
  /\ arrayLength (CSSOMTag.sheet this')
     = arrayLength (CSSOMTag.sheet this) + (n - insertCount)
  /\ (arrayLength (CSSOMTag.sheet this) <= CSSOM.maxRules ->
      arrayLength (CSSOMTag.sheet this') <= CSSOM.maxRules).
Proof.
  revert insertCount ruleIndex this.
  induction rules as [| rule rest IH]; intros insertCount ruleIndex this;
    simpl; [lia |].
  pose proof (cssom_insertRule_count ruleIndex rule this) as Hone.
  destruct (CSSOMTag.insertRule engine ruleIndex rule this) as [ok this'].
  destruct ok.
  - specialize (IH (insertCount + 1) (ruleIndex + 1) this').
    destruct (CSSOMTag.insertRules_loop _ _ _ _ _) as [n this''].
    destruct Hone as [? [? ?]], IH as [? [? ?]].
    split; [lia |]. split; [lia | auto].
  - specialize (IH insertCount ruleIndex this').
    destruct (CSSOMTag.insertRules_loop _ _ _ _ _) as [n this''].
    destruct Hone as [? [? ?]], IH as [? [? ?]].
    split; [lia |]. split; [lia | auto].
Qed.

(** The count the loop returns is what it started from plus what a run
    from zero counts. *)
Lemma cssom_insertRules_loop_shift rules insertCount ruleIndex this :
  CSSOMTag.insertRules_loop engine rules insertCount ruleIndex this
  = let (n, this') := CSSOMTag.insertRules_loop engine rules 0 ruleIndex this in
    (insertCount + n, this').
Proof.
  revert insertCount ruleIndex this.
  induction rules as [| rule rest IH]; intros insertCount ruleIndex this;
    simpl.
  - f_equal. lia.
  - destruct (CSSOMTag.insertRule engine ruleIndex rule this) as [[] this'].
    + rewrite (IH (insertCount + 1)), (IH 1).
      destruct (CSSOMTag.insertRules_loop engine rest 0 _ this').
      f_equal. lia.
    + apply IH.
Qed.

(** The loop over a batch in two parts: the second part goes on from the
    index and the count the first part ended with. *)
Lemma cssom_insertRules_loop_app rules1 rules2 insertCount ruleIndex this :
  CSSOMTag.insertRules_loop engine (rules1 ++ rules2) insertCount ruleIndex this
  = let (n, this') :=
      CSSOMTag.insertRules_loop engine rules1 insertCount ruleIndex this in
    CSSOMTag.insertRules_loop engine rules2 n
      (ruleIndex + (n - insertCount)) this'.
Proof.
  revert insertCount ruleIndex this.
  induction rules1 as [| rule rest IH]; intros insertCount ruleIndex this;
    simpl.
  - do 2 f_equal. lia.
  - destruct (CSSOMTag.insertRule engine ruleIndex rule this) as [[] this'].
    + rewrite IH.
      destruct (CSSOMTag.insertRules_loop engine rest _ _ this') as [n this''].
      f_equal. lia.
    + apply IH.
Qed.


Lemma cssom_deleteRule index this :
  CSSOMTag.deleteRule index this
  = let position := CSSOM.toUnsignedLong index in
    if position <? arrayLength (CSSOMTag.sheet this)
    then (Normal tt,
          {| CSSOMTag.sheet := delete (Z.to_nat position) (CSSOMTag.sheet this);
             CSSOMTag.length := CSSOMTag.length this - 1 |})
    else (Throw IndexSizeError, this).
Proof.
  unfold CSSOMTag.deleteRule, CSSOM.deleteRule. cbn zeta.
  by destruct (CSSOM.toUnsignedLong index <? arrayLength (CSSOMTag.sheet this)).
Qed.

Lemma cssom_getRule index this :
  0 <= index ->
  CSSOMTag.getRule index this
  = Str (default EmptyString
           (Tag.stored (Tag.CSSOM this) !! Z.to_nat index)).
Proof.
  intros Hindex. unfold CSSOMTag.getRule. simpl.
  rewrite list_lookup_fmap, item_lookup by lia.
  destruct (CSSOMTag.sheet this !! Z.to_nat index) as [parsed |];
    [| reflexivity].
  simpl. by destruct (CSSOM.cssText parsed).
Qed.

Lemma cssom_getRule_unpopulated index this :
  item (CSSOMTag.sheet this) index = None ->
  CSSOMTag.getRule index this = Str EmptyString.
Proof. intros Hitem. unfold CSSOMTag.getRule. by rewrite Hitem. Qed.

End EngineFacts.

(** ** The contract, over the three variants *)

Section ContractFacts.
Variable engine : CSSOM.Engine.
Implicit Types (tag : Tag.t) (o : op) (ops : list op).

Lemma stored_size tag :
  arrayLength (Tag.stored tag)
  = match tag with
    | Tag.CSSOM this => arrayLength (CSSOMTag.sheet this)
    | Tag.Text this => arrayLength (TextTag.nodes this)
    | Tag.Virtual this => arrayLength (VirtualTag.rules this)
    end.
Proof.
  destruct tag; simpl; unfold arrayLength; by rewrite ?length_fmap.
Qed.

Lemma consistent_makeTag options : consistent (makeTag options).
Proof.
  unfold makeTag.
  destruct (isServer options); [simpl; unfold arrayLength; simpl; lia |].
  destruct (useCSSOMInjection options); simpl.
  - split; [reflexivity |]. unfold arrayLength, CSSOM.maxRules. simpl. lia.
  - split; [reflexivity |]. split; [apply NoDup_nil_2 | apply Forall_nil_2].
Qed.

(** What one operation does to the invariant, to the counter and to the
    size of the store. *)
Lemma apply_effect o tag :
  consistent tag ->
  consistent (apply engine o tag)
  /\ Tag.length (apply engine o tag)
     = Tag.length tag + inserted engine o tag - deleted o tag
  /\ (precondition o tag ->
      Tag.length tag = arrayLength (Tag.stored tag) ->
      arrayLength (Tag.stored (apply engine o tag))
      = arrayLength (Tag.stored tag) + inserted engine o tag - deleted o tag
      /\ deleted o tag = if isDelete o then 1 else 0).
Proof.
  intros Hcons. rewrite !stored_size.
  destruct tag as [this | this | this];
    destruct o as [index rule | start rules | index | index];
    cbn [apply inserted deleted isDelete precondition Tag.insertRule
         Tag.insertRules Tag.deleteRule Tag.length].
  - (* CSSOMTag.insertRule *)
    pose proof (cssom_insertRule_count engine index rule this) as Hone.
    destruct (CSSOMTag.insertRule engine index rule this) as [ok this'].
    simpl in *. destruct Hone as [? [? ?]], Hcons as [? ?].
    destruct ok; (split; [split; [lia | auto] |]); lia.
  - (* CSSOMTag.insertRules *)
    pose proof (cssom_insertRules_loop_count engine rules 0 start this)
      as Hall.
    unfold CSSOMTag.insertRules.
    destruct (CSSOMTag.insertRules_loop engine rules 0 start this)
      as [n this'].
    simpl in *. destruct Hall as [? [? ?]], Hcons as [? ?].
    split; [split; [lia | auto] |]. lia.
  - (* CSSOMTag.deleteRule *)
    rewrite cssom_deleteRule. cbn zeta. simpl in Hcons.
    destruct Hcons as [Hlen Hroom].
    pose proof (toUnsignedLong_range index) as Hrange.
    destruct (Z.ltb_spec (CSSOM.toUnsignedLong index)
                (arrayLength (CSSOMTag.sheet this))); simpl.
    + rewrite arrayLength_delete by lia.
      split; [split; lia |]. lia.
    + pose proof (toUnsignedLong_small index).
      split; [split; lia |]. split; [lia |]. intros Hpre Hsync.
      unfold CSSOM.maxRules in *. lia.
  - (* CSSOMTag.getRule *)
    simpl in *. lia.
  - (* TextTag.insertRule *)
    destruct (decide (0 <= index <= TextTag.length this)) as [Hin | Hout].
    + rewrite text_insertRule_accepts by assumption.
      destruct Hcons as [Hlen Hdistinct]. cbn.
      pose proof (distinctNodes_attach _ _ (Z.to_nat index) [rule] Hdistinct)
        as Hattach.
      simpl in Hattach. rewrite Nat.add_1_r in Hattach.
      assert (arrayLength
                (take (Z.to_nat index) (TextTag.nodes this)
                   ++ DOM.mkNode (TextTag.document this) rule
                   :: drop (Z.to_nat index) (TextTag.nodes this))
              = arrayLength (TextTag.nodes this) + 1) as Hsize.
      { unfold arrayLength in *. rewrite length_app, length_take. simpl.
        rewrite length_drop. lia. }
      rewrite Hsize.
      split; [split; [lia | exact Hattach] |]. split; [lia | intros _ _; lia].
    + rewrite text_insertRule_rejects by assumption. simpl.
      split; [exact Hcons |]. split; [lia | intros _ _; lia].
  - (* TextTag.insertRules *)
    rewrite text_insertRules by assumption.
    destruct Hcons as [Hlen Hdistinct]. cbn.
    assert (distinctNodes (TextTag.document this + length rules)
              (if (0 <=? start) && (start <? TextTag.length this)
               then take (Z.to_nat start) (TextTag.nodes this)
                      ++ textNodes (TextTag.document this) rules
                      ++ drop (Z.to_nat start) (TextTag.nodes this)
               else TextTag.nodes this
                      ++ textNodes (TextTag.document this) rules)
            /\ arrayLength
                 (if (0 <=? start) && (start <? TextTag.length this)
                  then take (Z.to_nat start) (TextTag.nodes this)
                         ++ textNodes (TextTag.document this) rules
                         ++ drop (Z.to_nat start) (TextTag.nodes this)
                  else TextTag.nodes this
                         ++ textNodes (TextTag.document this) rules)
               = arrayLength (TextTag.nodes this) + arrayLength rules)
      as [Hattach Hsize].
    { destruct ((0 <=? start) && (start <? TextTag.length this)).
      - split; [by apply distinctNodes_attach |].
        unfold arrayLength.
        rewrite !length_app, length_take, length_drop, textNodes_length. lia.
      - split.
        + pose proof (distinctNodes_attach _ _ (length (TextTag.nodes this))
                        rules Hdistinct) as Hend.
          by rewrite firstn_all, drop_all, app_nil_r in Hend.
        + unfold arrayLength. rewrite length_app, textNodes_length. lia. }
    rewrite Hsize.
    split; [split; [lia | exact Hattach] |]. split; [lia | intros _ _; lia].
  - (* TextTag.deleteRule *)
    rewrite text_deleteRule by assumption.
    pose proof Hcons as [Hlen Hdistinct].
    destruct (Z.leb_spec 0 index);
      [destruct (Z.ltb_spec index (TextTag.length this)) |];
      cbn; try (split; [exact Hcons | lia]).
    rewrite arrayLength_delete by lia.
    split; [split; [lia | by apply distinctNodes_delete] |].
    split; [lia | intros _ _; lia].
  - (* TextTag.getRule *)
    simpl. split; [exact Hcons |]. split; [lia | intros _ _; lia].
  - (* VirtualTag.insertRule *)
    pose proof (virtual_insertRule_gap index rule this) as Hgap.
    pose proof (virtual_insertRule_count index rule this) as Hcount.
    destruct (VirtualTag.insertRule index rule this) as [ok this'].
    simpl in *. destruct ok; lia.
  - (* VirtualTag.insertRules *)
    pose proof (virtual_insertRules_loop_gap rules 0 start this) as Hgap.
    pose proof (virtual_insertRules_loop_count rules 0 start this) as Hcount.
    unfold VirtualTag.insertRules.
    destruct (VirtualTag.insertRules_loop rules 0 start this) as [n this'].
    simpl in *. lia.
  - (* VirtualTag.deleteRule *)
    pose proof (splice_delete_length (VirtualTag.rules this) index) as Hsize.
    simpl in *. split; [lia |]. split; [lia |].
    intros Hpre Hsync. rewrite splice_delete by lia.
    rewrite arrayLength_delete by lia. lia.
  - (* VirtualTag.getRule *)
    simpl in *. lia.
Qed.

Lemma consistent_run ops tag :
  consistent tag -> consistent (run engine ops tag).
Proof.
  revert tag. induction ops as [| o rest IH]; intros tag Hcons; simpl;
    [assumption |].
  apply IH. by apply apply_effect.
Qed.

Lemma reachable_consistent tag : reachable engine tag -> consistent tag.
Proof.
  intros [options [ops <-]]. apply consistent_run, consistent_makeTag.
Qed.

End ContractFacts.

(** * The contract, property by property *)

(** ** Concrete runs *)

(** C7 — On the list-backed variant starting empty: [insertRule(0,
    "a{color:red}")] returns true, the length is 1 and [getRule(0)] is the
    rule; [insertRule(5, "b{}")] returns false and changes nothing;
    [insertRules(1, ["c{}","d{}"])] returns 2, the length is 3 and the two
    rules are read at 1 and 2; [deleteRule(0)] leaves length 2 and
    [getRule(0) == "c{}"]. *)
Theorem virtualTag_scenario :
  let t0 := VirtualTag.new None in
  let (r1, t1) := VirtualTag.insertRule 0 "a{color:red}" t0 in
  let (r2, t2) := VirtualTag.insertRule 5 "b{}" t1 in
  let (r3, t3) := VirtualTag.insertRules 1 ["c{}"; "d{}"] t2 in
  let t4 := VirtualTag.deleteRule 0 t3 in
  VirtualTag.length t0 = 0
  /\ r1 = true /\ VirtualTag.length t1 = 1
  /\ VirtualTag.getRule 0 t1 = Str "a{color:red}"
  /\ r2 = false /\ t2 = t1
  /\ r3 = 2 /\ VirtualTag.length t3 = 3
  /\ VirtualTag.getRule 1 t3 = Str "c{}"
  /\ VirtualTag.getRule 2 t3 = Str "d{}"
  /\ VirtualTag.length t4 = 2
  /\ VirtualTag.getRule 0 t4 = Str "c{}".
Proof. vm_compute. repeat split. Qed.

(** ** [insertRule] and its index *)

(** C1 — The claim: on every backend [insertRule] answers false and changes
    nothing for an index outside [0, length], negative ones included.  The
    list-backed variant only guards the upper bound: at index -1 on a new
    Tag it answers true and stores the rule, where the node-backed variant,
    whose guard has both bounds, answers false and changes nothing. *)
Theorem virtualTag_insertRule_negative_index :
  VirtualTag.insertRule (-1) "a" (VirtualTag.new None)
  = (true, {| VirtualTag.rules := ["a"%string]; VirtualTag.length := 1 |})
  /\ TextTag.insertRule (-1) "a" (TextTag.new None)
     = (Normal false, TextTag.new None).
Proof. split; reflexivity. Qed.

(** What does hold of [insertRule] on every backend: it never raises; it
    either answers false and changes nothing, or answers true with the
    counter grown by one, and then the position the index designates was
    at most [length] (on the node-backed variant the index was not
    negative either). *)
Lemma insertRule_outcome engine tag index rule :
  reachable engine tag ->
  let (result, tag') := Tag.insertRule engine index rule tag in
  (result = Normal false /\ tag' = tag
   \/ result = Normal true /\ Tag.length tag' = Tag.length tag + 1
      /\ Tag.position tag index <= Tag.length tag
      /\ (Tag.variantOf tag = Tag.NodeBacked -> 0 <= index)).
Proof.
  intros Hcons%reachable_consistent.
  destruct tag as [this | this | this]; simpl.
  - rewrite cssom_insertRule. cbn zeta. simpl in Hcons.
    destruct (Z.leb_spec (CSSOM.toUnsignedLong index)
                (arrayLength (CSSOMTag.sheet this))); [| by left].
    destruct (arrayLength (CSSOMTag.sheet this) <? CSSOM.maxRules);
      [| by left].
    cbn [andb]. destruct (engine _ _ _); [right | by left].
    destruct Hcons as [Hlen _].
    split; [reflexivity |]. split; [reflexivity |]. split; [simpl; lia | done].
  - destruct (decide (0 <= index <= TextTag.length this)) as [Hin | Hout].
    + rewrite text_insertRule_accepts by assumption. right.
      split; [reflexivity |]. split; [reflexivity |].
      split; [simpl; lia | intros _; lia].
    + rewrite text_insertRule_rejects by assumption. by left.
  - unfold VirtualTag.insertRule.
    destruct (Z.leb_spec index (VirtualTag.length this)); [right | by left].
    split; [reflexivity |]. split; [reflexivity |]. split; [simpl; lia | done].
Qed.

(** ** Calls outside the contract *)

(** C10 — [VirtualTag.deleteRule] decrements [length] whatever the index.
    Called with an index at or above a [length] that is the size of the
    list, it removes nothing from the list and still decrements: afterwards
    [length] is no longer the size of the list.  On a new Tag it becomes
    negative. *)
Theorem virtualTag_deleteRule_unconditional :
  (forall index this,
     VirtualTag.length (VirtualTag.deleteRule index this)
     = VirtualTag.length this - 1)
  /\ (forall index this,
        VirtualTag.length this = arrayLength (VirtualTag.rules this) ->
        VirtualTag.length this <= index ->
        let this' := VirtualTag.deleteRule index this in
        VirtualTag.rules this' = VirtualTag.rules this
        /\ VirtualTag.length this' = VirtualTag.length this - 1
        /\ VirtualTag.length this' <> arrayLength (VirtualTag.rules this'))
  /\ VirtualTag.length (VirtualTag.deleteRule 0 (VirtualTag.new None)) = -1.
Proof.
  split; [reflexivity |]. split; [| reflexivity].
  intros index this Hsync Hindex.
  rewrite virtual_deleteRule_beyond by lia. simpl.
  split; [reflexivity |]. split; [reflexivity | lia].
Qed.

Lemma virtualTag_deleteRule_unconditional_witness :
  let this := {| VirtualTag.rules := ["a{}"%string]; VirtualTag.length := 1 |} in
  VirtualTag.deleteRule 4 this
  = {| VirtualTag.rules := ["a{}"%string]; VirtualTag.length := 0 |}
  /\ VirtualTag.length (VirtualTag.deleteRule 4 this)
     <> arrayLength (VirtualTag.rules (VirtualTag.deleteRule 4 this)).
Proof.
  intros this.
  destruct (proj1 (proj2 virtualTag_deleteRule_unconditional) 4 this)
    as [_ [_ Hlost]].
  - reflexivity.
  - simpl. lia.
  - split; [reflexivity | exact Hlost].
Defined.

(** C9 — [TextTag.insertRules] does not check [startRuleIndex]: with a start
    index below 0 or above [length] it still creates a node for every rule,
    attaches the batch after the last node, adds [rules.length] to [length]
    and returns [rules.length]. *)
Theorem textTag_insertRules_unchecked engine this startRuleIndex rules :
  reachable engine (Tag.Text this) ->
  startRuleIndex < 0 \/ TextTag.length this < startRuleIndex ->
  exists this',
    TextTag.insertRules startRuleIndex rules this
    = (Normal (arrayLength rules), this')
    /\ TextTag.nodes this'
       = TextTag.nodes this ++ textNodes (TextTag.document this) rules
    /\ Tag.stored (Tag.Text this') = Tag.stored (Tag.Text this) ++ rules
    /\ TextTag.length this' = TextTag.length this + arrayLength rules.
Proof.
  intros Hcons%reachable_consistent Hindex.
  rewrite text_insertRules by assumption.
  assert ((0 <=? startRuleIndex) && (startRuleIndex <? TextTag.length this)
          = false) as ->.
  { destruct (Z.leb_spec 0 startRuleIndex);
      destruct (Z.ltb_spec startRuleIndex (TextTag.length this));
      simpl; try reflexivity; lia. }
  eexists. split; [reflexivity |]. simpl.
  by rewrite fmap_app, textNodes_texts.
Qed.

Lemma textTag_insertRules_unchecked_witness :
  exists this',
    TextTag.insertRules 7 ["a{}"; "b{}"] (TextTag.new None)
    = (Normal 2, this')
    /\ Tag.stored (Tag.Text this') = ["a{}"; "b{}"]%string
    /\ TextTag.length this' = 2.
Proof.
  destruct (textTag_insertRules_unchecked verbatimEngine (TextTag.new None)
              7 ["a{}"; "b{}"]%string)
    as [this' [Hcall [_ [Hstored Hlength]]]].
  - exists (mkOptions false false None), []. reflexivity.
  - right. simpl. lia.
  - exists this'. repeat split; assumption.
Defined.

(** ** The selector *)

(** C8 — [makeTag] picks one class by a fixed priority: the list-backed
    one when [isServer] is set, whatever the other flag; else the
    engine-backed one when [useCSSOMInjection] is set; else the node-backed
    one.  The instance it returns stays of that class under every
    operation. *)
Theorem makeTag_priority engine :
  (forall cssom target,
     makeTag (mkOptions true cssom target)
     = Tag.Virtual (VirtualTag.new target))
  /\ (forall target,
        makeTag (mkOptions false true target)
        = Tag.CSSOM (CSSOMTag.new target))
  /\ (forall target,
        makeTag (mkOptions false false target)
        = Tag.Text (TextTag.new target))
  /\ (forall options ops,
        Tag.variantOf (run engine ops (makeTag options))
        = if isServer options then Tag.ListBacked
          else if useCSSOMInjection options then Tag.EngineBacked
          else Tag.NodeBacked).
Proof.
  repeat split.
  intros options ops.
  assert (forall tag,
            Tag.variantOf (run engine ops tag) = Tag.variantOf tag) as Hkeep.
  { induction ops as [| o rest IH]; intros tag; simpl; [reflexivity |].
    rewrite IH. destruct o as [index rule | start rules | index | index];
      destruct tag as [this | this | this]; simpl; try reflexivity.
    - by destruct (CSSOMTag.insertRule engine index rule this).
    - by destruct (TextTag.insertRule index rule this).
    - by destruct (VirtualTag.insertRule index rule this).
    - by destruct (CSSOMTag.insertRules engine start rules this).
    - by destruct (TextTag.insertRules start rules this).
    - by destruct (VirtualTag.insertRules start rules this).
    - by destruct (CSSOMTag.deleteRule index this).
    - by destruct (TextTag.deleteRule index this). }
  rewrite Hkeep. unfold makeTag.
  destruct (isServer options); [reflexivity |].
  by destruct (useCSSOMInjection options).
Qed.

(** ** Batches on the engine-backed variant *)




(** ** The counter along a sequence of operations *)

Section Sequences.
Variable engine : CSSOM.Engine.
Implicit Types (tag : Tag.t) (o : op) (ops : list op).




End Sequences.



(** ** A batch against one insert per rule *)

Section Batches.
Variable engine : CSSOM.Engine.
Implicit Types (rules : list string) (index start : Z).

Lemma text_insertRule_each rules start this :
  consistent (Tag.Text this) ->
  0 <= start <= TextTag.length this ->
  insertRule_each engine start rules (Tag.Text this)
  = Tag.Text
      {| TextTag.document := (TextTag.document this + length rules)%nat;
         TextTag.nodes :=
           take (Z.to_nat start) (TextTag.nodes this)
             ++ textNodes (TextTag.document this) rules
             ++ drop (Z.to_nat start) (TextTag.nodes this);
         TextTag.length := TextTag.length this + arrayLength rules |}.
Proof.
  revert start this.
  induction rules as [| rule rest IH]; intros start this Hcons Hstart.
  - simpl. rewrite take_drop, Nat.add_0_r. destruct this. simpl.
    do 2 f_equal. unfold arrayLength. simpl. lia.
  - cbn [insertRule_each].
    pose proof (apply_effect engine (InsertRule start rule) _ Hcons)
      as [Hnext _].
    cbn [apply Tag.insertRule] in *.
    rewrite text_insertRule_accepts in * by assumption.
    cbn [snd] in *. rewrite IH by (try assumption; simpl; lia).
    cbn [TextTag.document TextTag.nodes TextTag.length].
    replace (Z.to_nat (start + 1)) with (S (Z.to_nat start)) by lia.
    destruct Hcons as [Hlen _].
    rewrite take_inserted, drop_inserted by (unfold arrayLength in *; lia).
    rewrite <- app_assoc. cbn [textNodes app].
    unfold arrayLength. cbn [length]. f_equal. f_equal; lia.
Qed.

Lemma virtual_insertRule_each rules insertCount start this :
  start <= VirtualTag.length this ->
  insertRule_each engine start rules (Tag.Virtual this)
  = Tag.Virtual
      (snd (VirtualTag.insertRules_loop rules insertCount start this)).
Proof.
  revert insertCount start this.
  induction rules as [| rule rest IH]; intros insertCount start this Hstart.
  - reflexivity.
  - cbn [insertRule_each VirtualTag.insertRules_loop Tag.insertRule].
    rewrite virtual_insertRule_accepts by assumption. cbn [snd].
    apply IH. simpl. lia.
Qed.

End Batches.

(** C2, as the code has it — On the node-backed and list-backed variants,
    for a start index [s] with [0 <= s <= length] and every list of rules,
    [insertRules(s, rules)] returns [rules.length] and leaves the Tag in
    the state that [rules.length] calls of [insertRule] lead to, the first
    at [s] and each next one at the next higher index. *)
Theorem insertRules_as_insertRule_each engine tag start rules :
  reachable engine tag ->
  Tag.variantOf tag <> Tag.EngineBacked ->
  0 <= start <= Tag.length tag ->
  Tag.insertRules engine start rules tag
  = (Normal (arrayLength rules), insertRule_each engine start rules tag).
Proof.
  intros Hcons%reachable_consistent Hvariant Hstart.
  destruct tag as [this | this | this]; [done | |]; cbn [Tag.insertRules].
  - rewrite text_insertRules, text_insertRule_each by assumption.
    simpl in Hstart. destruct Hcons as [Hlen _].
    destruct (Z.leb_spec 0 start); [| lia].
    destruct (Z.ltb_spec start (TextTag.length this)); cbn [andb];
      [reflexivity |].
    rewrite take_ge, drop_ge, app_nil_r by (unfold arrayLength in *; lia).
    reflexivity.
  - simpl in Hstart. unfold VirtualTag.insertRules.
    rewrite (virtual_insertRule_each engine rules 0) by lia.
    pose proof (virtual_insertRules_loop_all rules 0 start this) as Hall.
    destruct (VirtualTag.insertRules_loop rules 0 start this) as [n this'].
    simpl in *. rewrite Hall by lia. reflexivity.
Qed.

Lemma insertRules_as_insertRule_each_witness :
  let tag := run verbatimEngine [InsertRule 0 "a{}"; InsertRule 1 "d{}"]
               (makeTag (mkOptions false false None)) in
  Tag.insertRules verbatimEngine 1 ["b{}"; "c{}"] tag
  = (Normal 2, insertRule_each verbatimEngine 1 ["b{}"; "c{}"] tag).
Proof.
  intros tag.
  apply (insertRules_as_insertRule_each verbatimEngine tag 1
           ["b{}"; "c{}"]%string).
  - exists (mkOptions false false None),
      [InsertRule 0 "a{}"; InsertRule 1 "d{}"]. reflexivity.
  - discriminate.
  - vm_compute. split; discriminate.
Defined.

(** C2, as stated, fails outside [0, length].  On a new node-backed Tag
    [insertRules(1, ["a"])] attaches the rule and counts it, where
    [insertRule(1, "a")] answers false and changes nothing; on a new
    list-backed Tag [insertRules(1, ["a"])] returns 0, not 1. *)
Lemma insertRules_beyond_length_differs :
  let text := makeTag (mkOptions false false None) in
  let virtual := makeTag (mkOptions true false None) in
  snd (Tag.insertRules verbatimEngine 1 ["a"] text)
  <> insertRule_each verbatimEngine 1 ["a"] text
  /\ Tag.length (snd (Tag.insertRules verbatimEngine 1 ["a"] text)) = 1
  /\ insertRule_each verbatimEngine 1 ["a"] text = text
  /\ fst (Tag.insertRules verbatimEngine 1 ["a"] virtual) = Normal 0
  /\ arrayLength ["a"%string] = 1.
Proof. vm_compute. repeat split. discriminate. Qed.

(** ** Reading after an insert *)

Section Reads.
Variable engine : CSSOM.Engine.
Implicit Types (tag : Tag.t) (index : Z) (rule : string).

(** The counter never exceeds the size of the store (on the list-backed
    variant it may be smaller, and even negative). *)
Lemma consistent_length_le tag :
  consistent tag -> Tag.length tag <= arrayLength (Tag.stored tag).
Proof.
  intros Hcons. rewrite stored_size.
  destruct tag as [this | this | this]; simpl in *; lia.
Qed.

(** Below [length], [getRule] reads the store. *)
Lemma getRule_within tag index :
  consistent tag ->
  0 <= index < Tag.length tag ->
  Tag.getRule index tag
  = Normal (Str (default EmptyString (Tag.stored tag !! Z.to_nat index))).
Proof.
  intros Hcons Hindex.
  destruct tag as [this | this | this].
  - simpl Tag.getRule. by rewrite cssom_getRule by lia.
  - apply text_getRule; [assumption | lia].
  - simpl in *.
    destruct (virtual_getRule_within index this) as [stored [Hstored ->]];
      [lia | lia |].
    by rewrite Hstored.
Qed.

(** Within the contract an index designates itself. *)
Lemma position_within tag index :
  consistent tag ->
  0 <= index <= Tag.length tag ->
  Tag.position tag index = index.
Proof.
  intros Hcons Hindex. destruct tag as [this | this | this];
    [| reflexivity | reflexivity].
  simpl in *. apply toUnsignedLong_small. lia.
Qed.

(** An accepted insert at a non-negative index puts one entry in the store,
    at the position the index designates. *)
Lemma insertRule_stored tag index rule tag' :
  consistent tag ->
  0 <= index ->
  Tag.insertRule engine index rule tag = (Normal true, tag') ->
  0 <= Tag.position tag index <= Tag.length tag
  /\ Tag.length tag' = Tag.length tag + 1
  /\ Tag.stored tag'
     = take (Z.to_nat (Tag.position tag index)) (Tag.stored tag)
         ++ Tag.readBack engine tag index rule
         :: drop (Z.to_nat (Tag.position tag index)) (Tag.stored tag).
Proof.
  intros Hcons Hindex.
  destruct tag as [this | this | this]; cbn [Tag.insertRule].
  - rewrite cssom_insertRule. cbn zeta. simpl.
    pose proof (toUnsignedLong_range index).
    destruct (Z.leb_spec (CSSOM.toUnsignedLong index)
                (arrayLength (CSSOMTag.sheet this))); [| discriminate].
    destruct (arrayLength (CSSOMTag.sheet this) <? CSSOM.maxRules);
      [| discriminate].
    cbn [andb].
    destruct (engine (CSSOMTag.sheet this) (CSSOM.toUnsignedLong index) rule)
      as [parsed |]; [| discriminate].
    simpl in *. intros [= <-]. simpl.
    rewrite fmap_app, fmap_cons, fmap_take, fmap_drop.
    split; [lia |]. split; reflexivity.
  - destruct (decide (0 <= index <= TextTag.length this)) as [Hin | Hout].
    + rewrite text_insertRule_accepts by assumption. intros [= <-]. simpl.
      rewrite fmap_app, fmap_cons, fmap_take, fmap_drop.
      split; [lia |]. split; reflexivity.
    + rewrite text_insertRule_rejects by assumption. discriminate.
  - unfold VirtualTag.insertRule.
    destruct (Z.leb_spec index (VirtualTag.length this)); [| discriminate].
    intros [= <-]. simpl in *.
    rewrite splice_insert by lia.
    split; [lia |]. split; reflexivity.
Qed.

End Reads.

(** C3, as the code has it — In every reachable state of every backend, if
    [insertRule(i, r)] with [0 <= i <= length] returns true, then
    [getRule(i)] gives the text the store keeps for [r]: [r] itself on the
    node-backed and list-backed variants, the text of the rule object the
    engine made of [r] on the engine-backed one (so [r] when that text is
    [r], the empty string when it is not readable); and for every [j] with
    [i < j < length] before the call, [getRule(j + 1)] gives afterwards
    what [getRule(j)] gave before. *)
Theorem insertRule_then_getRule engine tag index rule tag' :
  reachable engine tag ->
  0 <= index <= Tag.length tag ->
  Tag.insertRule engine index rule tag = (Normal true, tag') ->
  Tag.getRule index tag'
  = Normal (Str (Tag.readBack engine tag index rule))
  /\ (Tag.variantOf tag <> Tag.EngineBacked
      \/ (exists this,
            tag = Tag.CSSOM this
            /\ engine (CSSOMTag.sheet this) index rule
               = Normal {| CSSOM.cssText := Some rule |}) ->
      Tag.getRule index tag' = Normal (Str rule))
  /\ (forall j,
        index < j < Tag.length tag ->
        Tag.getRule (j + 1) tag' = Tag.getRule j tag).
Proof.
  intros Hcons%reachable_consistent Hindex Hcall.
  assert (consistent tag') as Hcons'.
  { pose proof (apply_effect engine (InsertRule index rule) tag Hcons)
      as [Hnext _].
    cbn [apply] in Hnext. by rewrite Hcall in Hnext. }
  destruct (insertRule_stored engine _ _ _ _ Hcons (proj1 Hindex) Hcall)
    as [_ [Hlength Hstored]].
  pose proof (position_within tag index Hcons Hindex) as Hposition.
  rewrite Hposition in Hstored.
  pose proof (consistent_length_le tag Hcons) as Hsize.
  assert (Tag.getRule index tag'
          = Normal (Str (Tag.readBack engine tag index rule))) as Hread.
  { rewrite getRule_within by (try assumption; lia).
    rewrite Hstored, lookup_inserted by (unfold arrayLength in Hsize; lia).
    reflexivity. }
  split; [exact Hread |]. split.
  - intros [Hvariant | [this [-> Hverbatim]]]; rewrite Hread; do 2 f_equal.
    + by destruct tag.
    + simpl in Hposition. simpl. by rewrite Hposition, Hverbatim.
  - intros j Hj.
    rewrite !getRule_within by (try assumption; lia).
    replace (Z.to_nat (j + 1)) with (S (Z.to_nat j)) by lia.
    rewrite Hstored, lookup_shifted by lia. reflexivity.
Qed.

Lemma insertRule_then_getRule_witness :
  let tag := run verbatimEngine [InsertRules 0 ["a{}"; "b{}"; "c{}"]]
               (makeTag (mkOptions false false None)) in
  let tag' := snd (Tag.insertRule verbatimEngine 1 "x{}" tag) in
  Tag.getRule 1 tag' = Normal (Str "x{}")
  /\ Tag.getRule (2 + 1) tag' = Tag.getRule 2 tag.
Proof.
  intros tag tag'.
  destruct (insertRule_then_getRule verbatimEngine tag 1 "x{}" tag')
    as [Hread [_ Hshift]].
  - exists (mkOptions false false None),
      [InsertRules 0 ["a{}"; "b{}"; "c{}"]]. reflexivity.
  - by compute_done.
  - reflexivity.
  - split; [exact Hread |]. apply Hshift. by compute_done.
Defined.

(** C3, as stated, fails.  On the engine-backed variant an accepted rule is
    read back as the engine serialises it, or as the empty string when its
    text is not readable, and an index above [length] that the engine
    reduces to a position of the sheet is accepted without the rule being
    readable at that index; on the list-backed variant [insertRule(-1, r)]
    returns true and [getRule(-1)] is [undefined]. *)
Lemma insertRule_getRule_mismatch :
  let cssom := makeTag (mkOptions false true None) in
  let virtual := makeTag (mkOptions true false None) in
  Tag.insertRule serialisingEngine 0 "a{color:red}" cssom
  = (Normal true,
     Tag.CSSOM {| CSSOMTag.sheet :=
                    [CSSOM.mkRule (Some "a { color: red; }"%string)];
                  CSSOMTag.length := 1 |})
  /\ Tag.getRule 0
       (snd (Tag.insertRule serialisingEngine 0 "a{color:red}" cssom))
     = Normal (Str "a { color: red; }")
  /\ fst (Tag.insertRule opaqueEngine 0 "a{color:red}" cssom) = Normal true
  /\ Tag.getRule 0 (snd (Tag.insertRule opaqueEngine 0 "a{color:red}" cssom))
     = Normal (Str EmptyString)
  /\ fst (Tag.insertRule verbatimEngine (-1) "a{color:red}" virtual)
     = Normal true
  /\ Tag.getRule (-1)
       (snd (Tag.insertRule verbatimEngine (-1) "a{color:red}" virtual))
     = Normal Undefined
  /\ fst (Tag.insertRule verbatimEngine 4294967296 "b{}" cssom) = Normal true
  /\ Tag.getRule 4294967296
       (snd (Tag.insertRule verbatimEngine 4294967296 "b{}" cssom))
     = Normal (Str EmptyString).
Proof. intros cssom virtual. repeat split; lazy; reflexivity. Qed.

(** ** Tolerant reads *)

(** X16 — In every reachable state, for every index [>= 0] on any
    backend, and for every index at all on the engine-backed variant,
    [getRule(index)] does not raise and returns a string, which is the
    empty string whenever [index >= length] or nothing is stored at
    [index]. *)
Theorem getRule_tolerant engine tag index :
  reachable engine tag ->
  0 <= index \/ Tag.variantOf tag = Tag.EngineBacked ->
  (exists text, Tag.getRule index tag = Normal (Str text))
  /\ (Tag.length tag <= index \/ item (Tag.stored tag) index = None ->
      Tag.getRule index tag = Normal (Str EmptyString)).
Proof.
  intros Hcons%reachable_consistent Hindex.
  destruct tag as [this | this | this].
  - (* engine-backed: every index *)
    clear Hindex. simpl in Hcons. split.
    + simpl. unfold CSSOMTag.getRule.
      destruct (item (CSSOMTag.sheet this) index) as [parsed |]; eauto.
      destruct (CSSOM.cssText parsed); eauto.
    + intros Hempty. simpl Tag.getRule. f_equal.
      apply cssom_getRule_unpopulated.
      destruct Hempty as [Hbeyond | Hnone].
      * apply item_beyond. simpl in Hbeyond. lia.
      * destruct (item (CSSOMTag.sheet this) index) as [parsed |] eqn:Hitem;
          [| reflexivity].
        apply item_Some_range in Hitem.
        rewrite item_lookup in Hnone by lia.
        apply lookup_ge_None in Hnone.
        simpl in Hnone. rewrite length_fmap in Hnone.
        unfold arrayLength in *. lia.
  - destruct Hindex as [Hindex | ?]; [| discriminate].
    cbn [Tag.getRule]. split.
    + rewrite text_getRule by assumption. eauto.
    + intros Hempty. rewrite text_getRule by assumption.
      destruct Hempty as [Hbeyond | Hnone].
      * destruct Hcons as [Hlen _]. simpl in Hbeyond.
        rewrite lookup_ge_None_2; [reflexivity |].
        simpl. rewrite length_fmap. unfold arrayLength in Hlen. lia.
      * rewrite item_lookup in Hnone by lia. by rewrite Hnone.
  - destruct Hindex as [Hindex | ?]; [| discriminate].
    simpl in Hcons. simpl Tag.getRule. simpl Tag.length. simpl Tag.stored.
    destruct (Z.ltb_spec index (VirtualTag.length this)) as [Hlt | Hge].
    + destruct (virtual_getRule_within index this) as [rule [Hrule Hread]];
        [lia | lia |].
      split; [rewrite Hread; eauto |].
      intros [Hbeyond | Hnone]; [lia |].
      rewrite item_lookup in Hnone by lia. congruence.
    + rewrite virtual_getRule_beyond by lia. split; [eauto | reflexivity].
Qed.

Lemma getRule_tolerant_witness :
  let tag := run verbatimEngine [InsertRule 0 "a{}"]
               (makeTag (mkOptions true false None)) in
  (exists text, Tag.getRule 0 tag = Normal (Str text))
  /\ Tag.getRule 1 tag = Normal (Str EmptyString).
Proof.
  intros tag.
  assert (reachable verbatimEngine tag) as Hreach
    by (exists (mkOptions true false None), [InsertRule 0 "a{}"]; reflexivity).
  split.
  - apply (getRule_tolerant verbatimEngine tag 0 Hreach). left. lia.
  - apply (getRule_tolerant verbatimEngine tag 1 Hreach); left.
    + lia.
    + vm_compute. discriminate.
Defined.

(** C4 — The claim: on every backend [getRule(index)] returns the empty
    string and does not raise at an index that is not populated, negative
    ones included.  [CSSOMTag.getRule] does so: it tests the rule object
    it read.  [TextTag.getRule] and [VirtualTag.getRule] only test
    [index < this.length]: on a new Tag, [getRule(-1)] raises on the
    node-backed variant and is [undefined] on the list-backed one. *)
Theorem getRule_negative_index_not_tolerated :
  Tag.getRule (-1) (makeTag (mkOptions false false None)) = Throw TypeError
  /\ Tag.getRule (-1) (makeTag (mkOptions true false None)) = Normal Undefined
  /\ Tag.getRule (-1) (makeTag (mkOptions false true None))
     = Normal (Str EmptyString).
Proof. repeat split; reflexivity. Qed.

(** * More of the contract *)

(** ** Lists with a group attached in the middle *)

Section AttachFacts.
Context {A : Type}.
Implicit Types (a x y : list A) (k j i : nat).

Lemma delete_inserted a k (e : A) :
  (k <= length a)%nat -> delete k (take k a ++ e :: drop k a) = a.
Proof.
  intros Hk. rewrite delete_take_drop, drop_inserted by assumption.
  rewrite take_app_length' by (rewrite length_take; lia).
  apply take_drop.
Qed.

Lemma lookup_attached_before a x k j :
  (k <= length a)%nat -> (j < k)%nat ->
  (take k a ++ x ++ drop k a) !! j = a !! j.
Proof.
  intros Hk Hj. rewrite lookup_app_l by (rewrite length_take; lia).
  by apply lookup_take_lt.
Qed.

Lemma lookup_attached_at a x k i :
  (k <= length a)%nat -> (i < length x)%nat ->
  (take k a ++ x ++ drop k a) !! (k + i)%nat = x !! i.
Proof.
  intros Hk Hi. rewrite lookup_app_r by (rewrite length_take; lia).
  rewrite length_take.
  replace (k + i - k `min` length a)%nat with i by lia.
  by apply lookup_app_l.
Qed.

Lemma lookup_attached_after a x k j :
  (k <= length a)%nat -> (k <= j)%nat ->
  (take k a ++ x ++ drop k a) !! (j + length x)%nat = a !! j.
Proof.
  intros Hk Hj. rewrite lookup_app_r by (rewrite length_take; lia).
  rewrite length_take, lookup_app_r by lia.
  rewrite lookup_drop. f_equal. lia.
Qed.

Lemma attach_attach a x y k :
  (k <= length a)%nat ->
  take (k + length x) (take k a ++ x ++ drop k a) ++ y
    ++ drop (k + length x) (take k a ++ x ++ drop k a)
  = take k a ++ (x ++ y) ++ drop k a.
Proof.
  intros Hk. rewrite (app_assoc (take k a) x).
  rewrite take_app_length', drop_app_length'
    by (rewrite length_app, length_take; lia).
  by rewrite <- !app_assoc.
Qed.

Lemma splice_negative_start a index (deleteCount : Z) x :
  index < 0 ->
  splice a index deleteCount x
  = let start := Z.max (arrayLength a + index) 0 in
    take (Z.to_nat start) a ++ x
      ++ drop (Z.to_nat
                 (start + Z.min (Z.max deleteCount 0) (arrayLength a - start)))
           a.
Proof.
  intros Hindex. unfold splice.
  destruct (Z.ltb_spec index 0); [reflexivity | lia].
Qed.

End AttachFacts.

(** ** The list-backed variant at the edges of the list *)

Lemma virtual_insertRules_loop_within rules insertCount ruleIndex
    (this : VirtualTag.t) :
  0 <= ruleIndex <= VirtualTag.length this ->
  VirtualTag.length this <= arrayLength (VirtualTag.rules this) ->
  VirtualTag.insertRules_loop rules insertCount ruleIndex this
  = (insertCount + arrayLength rules,
     {| VirtualTag.rules :=
          take (Z.to_nat ruleIndex) (VirtualTag.rules this) ++ rules
            ++ drop (Z.to_nat ruleIndex) (VirtualTag.rules this);
        VirtualTag.length := VirtualTag.length this + arrayLength rules |}).
Proof.
  revert insertCount ruleIndex this.
  induction rules as [| rule rest IH];
    intros insertCount ruleIndex this Hindex Hsize.
  - simpl. rewrite take_drop. destruct this. simpl.
    unfold arrayLength. simpl. do 2 f_equal; lia.
  - cbn [VirtualTag.insertRules_loop].
    rewrite virtual_insertRule_accepts, splice_insert by lia.
    assert (arrayLength
              (take (Z.to_nat ruleIndex) (VirtualTag.rules this) ++ [rule]
                 ++ drop (Z.to_nat ruleIndex) (VirtualTag.rules this))
            = arrayLength (VirtualTag.rules this) + 1) as Hgrown.
    { unfold arrayLength in *. rewrite !length_app, length_take, length_drop.
      simpl. lia. }
    rewrite IH; cbn [VirtualTag.rules VirtualTag.length]; [| lia | lia].
    replace (Z.to_nat (ruleIndex + 1)) with (S (Z.to_nat ruleIndex)) by lia.
    cbn [app].
    rewrite take_inserted, drop_inserted by (unfold arrayLength in *; lia).
    rewrite <- app_assoc. unfold arrayLength. cbn [length app].
    f_equal; [| f_equal]; lia.
Qed.

(** X5 — [VirtualTag.insertRule] with a negative index that passes its
    guard ([index <= length]) returns true and places the rule counting
    from the end of the list, at position [rules.length + index], or at the
    front when that is negative; [length] grows by one. *)
Theorem virtualTag_insertRule_below_zero index rule (this : VirtualTag.t) :
  index < 0 ->
  index <= VirtualTag.length this ->
  VirtualTag.insertRule index rule this
  = (true,
     {| VirtualTag.rules :=
          (let position :=
             Z.to_nat (Z.max (arrayLength (VirtualTag.rules this) + index) 0) in
           take position (VirtualTag.rules this) ++ rule
             :: drop position (VirtualTag.rules this));
        VirtualTag.length := VirtualTag.length this + 1 |}).
Proof.
  intros Hnegative Hguard.
  rewrite virtual_insertRule_accepts, splice_negative_start by assumption.
  pose proof (arrayLength_nonneg (VirtualTag.rules this)).
  cbn zeta.
  set (start := Z.max (arrayLength (VirtualTag.rules this) + index) 0).
  replace (start + Z.min (Z.max 0 0)
                     (arrayLength (VirtualTag.rules this) - start))
    with start by lia.
  reflexivity.
Qed.

Lemma virtualTag_insertRule_below_zero_witness :
  VirtualTag.insertRule (-1) "x{}"
    {| VirtualTag.rules := ["a{}"; "b{}"]; VirtualTag.length := 2 |}
  = (true, {| VirtualTag.rules := ["a{}"; "x{}"; "b{}"];
              VirtualTag.length := 3 |}).
Proof.
  apply (virtualTag_insertRule_below_zero (-1) "x{}"
           {| VirtualTag.rules := ["a{}"; "b{}"]; VirtualTag.length := 2 |});
    simpl; lia.
Defined.

(** X4 — [VirtualTag.deleteRule] with a negative index removes the rule
    counted from the end of the list (the one at [rules.length + index], or
    the first one when that is negative), nothing when the list is empty,
    and decrements [length]. *)
Theorem virtualTag_deleteRule_below_zero index (this : VirtualTag.t) :
  index < 0 ->
  VirtualTag.deleteRule index this
  = {| VirtualTag.rules :=
         delete (Z.to_nat (Z.max (arrayLength (VirtualTag.rules this) + index) 0))
           (VirtualTag.rules this);
       VirtualTag.length := VirtualTag.length this - 1 |}.
Proof.
  intros Hnegative. unfold VirtualTag.deleteRule.
  rewrite splice_negative_start by assumption. cbn zeta. f_equal.
  pose proof (arrayLength_nonneg (VirtualTag.rules this)) as Hlen.
  destruct (VirtualTag.rules this) as [| first rest] eqn:Hrules.
  - rewrite take_nil, drop_nil. by destruct (Z.to_nat _).
  - assert (0 < arrayLength (first :: rest))
      by (unfold arrayLength; simpl; lia).
    rewrite delete_take_drop. cbn [app]. f_equal. f_equal. lia.
Qed.

Lemma virtualTag_deleteRule_below_zero_witness :
  VirtualTag.deleteRule (-1)
    {| VirtualTag.rules := ["a{}"; "b{}"; "c{}"]; VirtualTag.length := 3 |}
  = {| VirtualTag.rules := ["a{}"; "b{}"]; VirtualTag.length := 2 |}.
Proof.
  apply (virtualTag_deleteRule_below_zero (-1)
           {| VirtualTag.rules := ["a{}"; "b{}"; "c{}"];
              VirtualTag.length := 3 |}).
  lia.
Defined.

(** X11 — [VirtualTag.insertRules] with a start index above [length]
    stores none of the rules: every [insertRule] of the loop is refused,
    the call returns 0 and the Tag is as before. *)
Theorem virtualTag_insertRules_above_length startRuleIndex rules
    (this : VirtualTag.t) :
  VirtualTag.length this < startRuleIndex ->
  VirtualTag.insertRules startRuleIndex rules this = (0, this).
Proof.
  intros Habove. unfold VirtualTag.insertRules.
  by apply virtual_insertRules_loop_none.
Qed.

Lemma virtualTag_insertRules_above_length_witness :
  VirtualTag.insertRules 3 ["a{}"; "b{}"]
    {| VirtualTag.rules := ["z{}"]; VirtualTag.length := 1 |}
  = (0, {| VirtualTag.rules := ["z{}"]; VirtualTag.length := 1 |}).
Proof.
  apply (virtualTag_insertRules_above_length 3 ["a{}"; "b{}"]%string
           {| VirtualTag.rules := ["z{}"]; VirtualTag.length := 1 |}).
  simpl. lia.
Defined.

(** X13 — On the list-backed variant no operation brings [length] closer
    to the size of the list again: along every sequence of operations the
    excess of the list's size over [length] never decreases. *)
Theorem virtualTag_gap_never_shrinks engine ops (this : VirtualTag.t) :
  exists this',
    run engine ops (Tag.Virtual this) = Tag.Virtual this'
    /\ arrayLength (VirtualTag.rules this) - VirtualTag.length this
       <= arrayLength (VirtualTag.rules this') - VirtualTag.length this'.
Proof.
  revert this. induction ops as [| o rest IH]; intros this.
  - exists this. split; [reflexivity | lia].
  - assert (exists next,
              apply engine o (Tag.Virtual this) = Tag.Virtual next
              /\ arrayLength (VirtualTag.rules this) - VirtualTag.length this
                 <= arrayLength (VirtualTag.rules next)
                    - VirtualTag.length next) as [next [Hstep Hgap]].
    { destruct o as [index rule | start rules | index | index];
        cbn [apply Tag.insertRule Tag.insertRules Tag.deleteRule].
      - pose proof (virtual_insertRule_gap index rule this) as Hkeep.
        destruct (VirtualTag.insertRule index rule this) as [ok next].
        exists next. split; [reflexivity | simpl in Hkeep; lia].
      - pose proof (virtual_insertRules_loop_gap rules 0 start this) as Hkeep.
        unfold VirtualTag.insertRules.
        destruct (VirtualTag.insertRules_loop rules 0 start this)
          as [n next].
        exists next. split; [reflexivity | simpl in Hkeep; lia].
      - exists (VirtualTag.deleteRule index this). split; [reflexivity |].
        pose proof (splice_delete_length (VirtualTag.rules this) index).
        simpl. lia.
      - exists this. split; [reflexivity | lia]. }
    destruct (IH next) as [this' [Hrun Hrest]].
    exists this'. cbn [run]. rewrite Hstep. split; [exact Hrun | lia].
Qed.

(** ** Deleting, on the three variants *)

Section Deletes.
Variable engine : CSSOM.Engine.
Implicit Types (tag : Tag.t) (index : Z) (rule : string).


(** A delete at an index that designates a position below [length] takes
    one entry out of the store, the one at that position. *)
Lemma deleteRule_stored tag index :
  consistent tag ->
  0 <= index ->
  Tag.position tag index < Tag.length tag ->
  exists tag',
    Tag.deleteRule index tag = (Normal tt, tag')
    /\ consistent tag'
    /\ Tag.length tag' = Tag.length tag - 1
    /\ Tag.stored tag'
       = delete (Z.to_nat (Tag.position tag index)) (Tag.stored tag).
Proof.
  intros Hcons Hindex Hposition.
  pose proof (apply_effect engine (DeleteRule index) tag Hcons)
    as [Hnext _].
  cbn [apply] in Hnext.
  destruct tag as [this | this | this];
    cbn [Tag.deleteRule Tag.position Tag.length] in *.
  - rewrite cssom_deleteRule in *. cbn zeta in *. destruct Hcons as [Hlen _].
    destruct (Z.ltb_spec (CSSOM.toUnsignedLong index)
                (arrayLength (CSSOMTag.sheet this))); [| lia].
    eexists. split; [reflexivity |].
    split; [exact Hnext |]. split; [reflexivity |].
    simpl. by rewrite list_fmap_delete.
  - rewrite text_deleteRule in * by assumption.
    destruct (Z.leb_spec 0 index); [| lia].
    destruct (Z.ltb_spec index (TextTag.length this)); [| lia].
    cbn [andb] in *. eexists. split; [reflexivity |].
    split; [exact Hnext |]. split; [reflexivity |].
    simpl. by rewrite list_fmap_delete.
  - simpl in Hcons. eexists. split; [reflexivity |].
    split; [exact Hnext |]. split; [reflexivity |].
    simpl. by rewrite splice_delete by lia.
Qed.

(** [insertRule] returns an instance of the class it was called on. *)
Lemma insertRule_outcome_variant tag index rule :
  let (result, tag') := Tag.insertRule engine index rule tag in
  Tag.variantOf tag' = Tag.variantOf tag.
Proof.
  destruct tag as [this | this | this]; simpl.
  - by destruct (CSSOMTag.insertRule engine index rule this).
  - by destruct (TextTag.insertRule index rule this).
  - by destruct (VirtualTag.insertRule index rule this).
Qed.

End Deletes.



(** X2 — In every reachable state, an [insertRule(i, r)] with [i >= 0]
    that returned true is undone by [deleteRule(i)]: the delete completes
    and the store and [length] are what they were before the insert; on
    the engine-backed and list-backed variants the Tag is the same state
    again. *)
Theorem insertRule_then_deleteRule engine tag index rule tag' :
  reachable engine tag ->
  0 <= index ->
  Tag.insertRule engine index rule tag = (Normal true, tag') ->
  exists tag'',
    Tag.deleteRule index tag' = (Normal tt, tag'')
    /\ Tag.length tag'' = Tag.length tag
    /\ Tag.stored tag'' = Tag.stored tag
    /\ (Tag.variantOf tag <> Tag.NodeBacked -> tag'' = tag).
Proof.
  intros Hcons%reachable_consistent Hindex Hcall.
  assert (consistent tag') as Hcons'.
  { pose proof (apply_effect engine (InsertRule index rule) tag Hcons)
      as [Hnext _].
    cbn [apply] in Hnext. by rewrite Hcall in Hnext. }
  destruct (insertRule_stored engine _ _ _ _ Hcons Hindex Hcall)
    as [Hle [Hlength Hstored]].
  pose proof (consistent_length_le tag Hcons) as Hsize.
  assert (Tag.position tag' index = Tag.position tag index) as Hsame_position.
  { pose proof (insertRule_outcome_variant engine tag index rule) as Hkeep.
    rewrite Hcall in Hkeep. unfold Tag.position.
    by destruct tag, tag'. }
  destruct (deleteRule_stored engine tag' index Hcons')
    as [tag'' [Hdelete [_ [Hlength' Hstored']]]]; [lia | lia |].
  rewrite Hsame_position in Hstored'.
  exists tag''. split; [exact Hdelete |]. split; [lia |].
  assert (Tag.stored tag'' = Tag.stored tag) as Hsame.
  { rewrite Hstored', Hstored.
    apply delete_inserted. unfold arrayLength in Hsize. lia. }
  split; [exact Hsame |].
  intros Hvariant.
  destruct tag as [this | this | this]; [| done |];
    cbn [Tag.insertRule] in Hcall.
  - rewrite cssom_insertRule in Hcall. cbn zeta in Hcall.
    simpl in Hle.
    destruct ((CSSOM.toUnsignedLong index <=? _) && _); [| discriminate].
    destruct (engine _ _ _) as [parsed |]; [| discriminate].
    injection Hcall as <-. cbn [Tag.deleteRule] in Hdelete.
    rewrite cssom_deleteRule in Hdelete. cbn zeta in Hdelete.
    cbn [CSSOMTag.sheet] in Hdelete.
    destruct (CSSOM.toUnsignedLong index <? _); [| discriminate].
    injection Hdelete as <-. cbn [CSSOMTag.sheet CSSOMTag.length].
    simpl in Hsize.
    rewrite delete_inserted
      by (unfold arrayLength in *; rewrite length_fmap in Hsize; lia).
    destruct this. simpl. do 2 f_equal. lia.
  - unfold VirtualTag.insertRule in Hcall.
    destruct (Z.leb_spec index (VirtualTag.length this)); [| discriminate].
    injection Hcall as <-. cbn [Tag.deleteRule] in Hdelete.
    injection Hdelete as <-. simpl in Hsame. unfold VirtualTag.deleteRule.
    cbn [VirtualTag.rules VirtualTag.length] in *. rewrite Hsame.
    destruct this. simpl. do 2 f_equal. lia.
Qed.

Lemma insertRule_then_deleteRule_witness :
  let tag := run verbatimEngine [InsertRules 0 ["a{}"; "b{}"]]
               (makeTag (mkOptions true false None)) in
  exists tag'',
    Tag.deleteRule 1 (snd (Tag.insertRule verbatimEngine 1 "x{}" tag))
    = (Normal tt, tag'')
    /\ Tag.stored tag'' = Tag.stored tag.
Proof.
  intros tag.
  destruct (insertRule_then_deleteRule verbatimEngine tag 1 "x{}"
              (snd (Tag.insertRule verbatimEngine 1 "x{}" tag)))
    as [tag'' [Hdelete [_ [Hstored _]]]].
  - exists (mkOptions true false None), [InsertRules 0 ["a{}"; "b{}"]].
    reflexivity.
  - lia.
  - reflexivity.
  - exists tag''. split; assumption.
Defined.

(** X3 — On the engine-backed and node-backed variants, in every reachable
    state, [deleteRule] with an index that designates no stored rule raises
    and leaves the Tag as it was, [length] included: on the node-backed
    variant that is every index outside [0, length), on the engine-backed
    variant every index whose reduction modulo 2^32 is not below
    [length]. *)
Theorem deleteRule_out_of_range_raises engine tag index :
  reachable engine tag ->
  Tag.variantOf tag <> Tag.ListBacked ->
  ~ 0 <= Tag.position tag index < Tag.length tag ->
  exists e, Tag.deleteRule index tag = (Throw e, tag).
Proof.
  intros Hcons%reachable_consistent Hvariant Hindex.
  destruct tag as [this | this | this]; [| | done];
    cbn [Tag.deleteRule Tag.position Tag.length] in *.
  - rewrite cssom_deleteRule. cbn zeta. destruct Hcons as [Hlen _].
    pose proof (toUnsignedLong_range index).
    exists IndexSizeError.
    destruct (Z.ltb_spec (CSSOM.toUnsignedLong index)
                (arrayLength (CSSOMTag.sheet this))); [lia | reflexivity].
  - rewrite text_deleteRule by assumption.
    exists TypeError.
    destruct (Z.leb_spec 0 index);
      [destruct (Z.ltb_spec index (TextTag.length this)) |];
      cbn [andb]; try reflexivity; lia.
Qed.

Lemma deleteRule_out_of_range_raises_witness :
  exists e,
    Tag.deleteRule 0 (makeTag (mkOptions false false None))
    = (Throw e, makeTag (mkOptions false false None)).
Proof.
  apply (deleteRule_out_of_range_raises verbatimEngine
           (makeTag (mkOptions false false None)) 0).
  - exists (mkOptions false false None), []. reflexivity.
  - discriminate.
  - simpl. lia.
Defined.

(** ** Batches within the contract *)

Section BatchesWithin.
Variable engine : CSSOM.Engine.
Implicit Types (tag : Tag.t) (start : Z) (rules : list string).

Lemma text_insertRules_within start rules (this : TextTag.t) :
  consistent (Tag.Text this) ->
  0 <= start <= TextTag.length this ->
  TextTag.insertRules start rules this
  = (Normal (arrayLength rules),
     {| TextTag.document := (TextTag.document this + length rules)%nat;
        TextTag.nodes :=
          take (Z.to_nat start) (TextTag.nodes this)
            ++ textNodes (TextTag.document this) rules
            ++ drop (Z.to_nat start) (TextTag.nodes this);
        TextTag.length := TextTag.length this + arrayLength rules |}).
Proof.
  intros Hcons Hstart. rewrite text_insertRules by assumption.
  destruct Hcons as [Hlen _].
  destruct (Z.leb_spec 0 start); [| lia].
  destruct (Z.ltb_spec start (TextTag.length this)); cbn [andb];
    [reflexivity |].
  rewrite take_ge, drop_ge, app_nil_r by (unfold arrayLength in *; lia).
  reflexivity.
Qed.

(** On the node-backed and list-backed variants a batch within
    [0, length] puts its rules in the store at the start index, in order. *)
Lemma insertRules_stored tag start rules :
  consistent tag ->
  Tag.variantOf tag <> Tag.EngineBacked ->
  0 <= start <= Tag.length tag ->
  exists tag',
    Tag.insertRules engine start rules tag
    = (Normal (arrayLength rules), tag')
    /\ consistent tag'
    /\ Tag.length tag' = Tag.length tag + arrayLength rules
    /\ Tag.stored tag'
       = take (Z.to_nat start) (Tag.stored tag) ++ rules
           ++ drop (Z.to_nat start) (Tag.stored tag).
Proof.
  intros Hcons Hvariant Hstart.
  pose proof (apply_effect engine (InsertRules start rules) tag Hcons)
    as [Hnext _].
  cbn [apply] in Hnext.
  destruct tag as [this | this | this]; [done | |];
    cbn [Tag.insertRules] in *; simpl in Hstart.
  - rewrite text_insertRules_within in * by assumption.
    eexists. split; [reflexivity |]. split; [exact Hnext |].
    split; [reflexivity |]. simpl.
    by rewrite !fmap_app, fmap_take, fmap_drop, textNodes_texts.
  - unfold VirtualTag.insertRules in *. simpl in Hcons.
    rewrite virtual_insertRules_loop_within in * by lia.
    eexists. split; [reflexivity |]. split; [exact Hnext |].
    split; reflexivity.
Qed.

End BatchesWithin.

(** X8 — On the node-backed and list-backed variants, in every reachable
    state, [insertRules(s, rules)] with [0 <= s <= length] returns
    [rules.length] and adds it to [length]; afterwards [getRule(s + k)]
    gives the [k]-th rule of the batch, the rules below [s] are where they
    were, and each rule that was at [j >= s] is read at
    [j + rules.length]. *)
Theorem insertRules_then_getRule engine tag start rules :
  reachable engine tag ->
  Tag.variantOf tag <> Tag.EngineBacked ->
  0 <= start <= Tag.length tag ->
  exists tag',
    Tag.insertRules engine start rules tag
    = (Normal (arrayLength rules), tag')
    /\ Tag.length tag' = Tag.length tag + arrayLength rules
    /\ (forall k rule,
          0 <= k ->
          rules !! Z.to_nat k = Some rule ->
          Tag.getRule (start + k) tag' = Normal (Str rule))
    /\ (forall j, 0 <= j < start -> Tag.getRule j tag' = Tag.getRule j tag)
    /\ (forall j,
          start <= j < Tag.length tag ->
          Tag.getRule (j + arrayLength rules) tag' = Tag.getRule j tag).
Proof.
  intros Hcons%reachable_consistent Hvariant Hstart.
  destruct (insertRules_stored engine tag start rules Hcons Hvariant Hstart)
    as [tag' [Hcall [Hcons' [Hlength Hstored]]]].
  pose proof (consistent_length_le tag Hcons) as Hsize.
  unfold arrayLength in Hsize.
  exists tag'. split; [exact Hcall |]. split; [exact Hlength |].
  split; [| split].
  - intros k rule Hk Hrule.
    pose proof (lookup_lt_Some _ _ _ Hrule) as Hbound.
    rewrite getRule_within
      by (try assumption; unfold arrayLength in *; lia).
    replace (Z.to_nat (start + k)) with (Z.to_nat start + Z.to_nat k)%nat
      by lia.
    rewrite Hstored, lookup_attached_at, Hrule by lia. reflexivity.
  - intros j Hj.
    pose proof (arrayLength_nonneg rules).
    rewrite !getRule_within by (try assumption; lia).
    rewrite Hstored, lookup_attached_before by lia. reflexivity.
  - intros j Hj.
    pose proof (arrayLength_nonneg rules).
    rewrite !getRule_within by (try assumption; lia).
    replace (Z.to_nat (j + arrayLength rules))
      with (Z.to_nat j + length rules)%nat by (unfold arrayLength; lia).
    rewrite Hstored, lookup_attached_after by lia. reflexivity.
Qed.

Lemma insertRules_then_getRule_witness :
  let tag := run verbatimEngine [InsertRule 0 "a{}"; InsertRule 1 "d{}"]
               (makeTag (mkOptions false false None)) in
  exists tag',
    Tag.insertRules verbatimEngine 1 ["b{}"; "c{}"] tag = (Normal 2, tag')
    /\ Tag.getRule (1 + 1) tag' = Normal (Str "c{}")
    /\ Tag.getRule (1 + 2) tag' = Tag.getRule 1 tag.
Proof.
  intros tag.
  destruct (insertRules_then_getRule verbatimEngine tag 1
              ["b{}"; "c{}"]%string)
    as [tag' [Hcall [_ [Hbatch [_ Hafter]]]]].
  - exists (mkOptions false false None),
      [InsertRule 0 "a{}"; InsertRule 1 "d{}"]. reflexivity.
  - discriminate.
  - by compute_done.
  - exists tag'. split; [exact Hcall |]. split.
    + apply Hbatch; [lia | reflexivity].
    + apply (Hafter 1). by compute_done.
Defined.

(** X9 — In every reachable state, an [insertRule(i, r)] with [i >= 0]
    that returns true leaves every rule below the position it stored the
    rule at readable where it was (the position is [i], reduced modulo
    2^32 on the engine-backed variant), and one that returns false leaves
    the Tag as it was. *)
Theorem insertRule_keeps_rules_before engine tag index rule tag' :
  reachable engine tag ->
  0 <= index ->
  (Tag.insertRule engine index rule tag = (Normal true, tag') ->
   forall j,
     0 <= j < Tag.position tag index ->
     Tag.getRule j tag' = Tag.getRule j tag)
  /\ (Tag.insertRule engine index rule tag = (Normal false, tag') ->
      tag' = tag).
Proof.
  intros Hreach Hindex. split.
  - pose proof (reachable_consistent engine tag Hreach) as Hcons.
    intros Hcall j Hj.
    assert (consistent tag') as Hcons'.
    { pose proof (apply_effect engine (InsertRule index rule) tag Hcons)
        as [Hnext _].
      cbn [apply] in Hnext. by rewrite Hcall in Hnext. }
    destruct (insertRule_stored engine _ _ _ _ Hcons Hindex Hcall)
      as [Hle [Hlength Hstored]].
    pose proof (consistent_length_le tag Hcons) as Hsize.
    unfold arrayLength in Hsize.
    rewrite !getRule_within by (try assumption; lia).
    rewrite Hstored.
    change (Tag.readBack engine tag index rule
              :: drop (Z.to_nat (Tag.position tag index)) (Tag.stored tag))
      with ([Tag.readBack engine tag index rule]
              ++ drop (Z.to_nat (Tag.position tag index)) (Tag.stored tag)).
    rewrite lookup_attached_before by lia. reflexivity.
  - pose proof (insertRule_outcome engine tag index rule Hreach) as Hout.
    intros Hcall. rewrite Hcall in Hout.
    destruct Hout as [[_ Hsame] | [Htrue _]]; [exact Hsame | discriminate].
Qed.

Lemma insertRule_keeps_rules_before_witness :
  let tag := run verbatimEngine [InsertRules 0 ["a{}"; "b{}"]]
               (makeTag (mkOptions false true None)) in
  Tag.getRule 0 (snd (Tag.insertRule verbatimEngine 1 "x{}" tag))
  = Tag.getRule 0 tag.
Proof.
  intros tag.
  apply (proj1 (insertRule_keeps_rules_before verbatimEngine tag 1 "x{}"
                  (snd (Tag.insertRule verbatimEngine 1 "x{}" tag))
                  (ex_intro _ (mkOptions false true None)
                     (ex_intro _ [InsertRules 0 ["a{}"; "b{}"]] eq_refl))
                  ltac:(lia))).
  - reflexivity.
  - by compute_done.
Defined.

(** ** A batch in two parts *)

Section SplitBatches.
Variable engine : CSSOM.Engine.
Implicit Types (start : Z) (rules : list string).

Lemma cssom_insertRules_app start rules1 rules2 (this : CSSOMTag.t) :
  exists n1 this1 n2 this2,
    CSSOMTag.insertRules engine start rules1 this = (n1, this1)
    /\ CSSOMTag.insertRules engine (start + n1) rules2 this1 = (n2, this2)
    /\ CSSOMTag.insertRules engine start (rules1 ++ rules2) this
       = (n1 + n2, this2).
Proof.
  unfold CSSOMTag.insertRules.
  destruct (CSSOMTag.insertRules_loop engine rules1 0 start this)
    as [n1 this1] eqn:Hfirst.
  destruct (CSSOMTag.insertRules_loop engine rules2 0 (start + n1) this1)
    as [n2 this2] eqn:Hsecond.
  exists n1, this1, n2, this2. split; [reflexivity |].
  split; [exact Hsecond |].
  rewrite cssom_insertRules_loop_app, Hfirst, Z.sub_0_r.
  by rewrite cssom_insertRules_loop_shift, Hsecond.
Qed.

Lemma text_insertRules_app start rules1 rules2 (this : TextTag.t) :
  consistent (Tag.Text this) ->
  0 <= start <= TextTag.length this ->
  exists this1 this2,
    TextTag.insertRules start rules1 this
    = (Normal (arrayLength rules1), this1)
    /\ TextTag.insertRules (start + arrayLength rules1) rules2 this1
       = (Normal (arrayLength rules2), this2)
    /\ TextTag.insertRules start (rules1 ++ rules2) this
       = (Normal (arrayLength rules1 + arrayLength rules2), this2).
Proof.
  intros Hcons Hstart.
  pose proof (arrayLength_nonneg rules1) as Hn1.
  pose proof (apply_effect engine (InsertRules start rules1) _ Hcons)
    as [Hnext _].
  cbn [apply Tag.insertRules] in Hnext.
  rewrite text_insertRules_within in Hnext by assumption.
  cbn [snd] in Hnext.
  do 2 eexists. split; [| split].
  - by rewrite text_insertRules_within by assumption.
  - apply text_insertRules_within; [exact Hnext |].
    cbn [TextTag.length]. lia.
  - rewrite text_insertRules_within by assumption.
    cbn [TextTag.document TextTag.nodes TextTag.length].
    destruct Hcons as [Hlen _].
    replace (Z.to_nat (start + arrayLength rules1))
      with (Z.to_nat start
            + length (textNodes (TextTag.document this) rules1))%nat
      by (rewrite textNodes_length; unfold arrayLength; lia).
    rewrite attach_attach by (unfold arrayLength in *; lia).
    rewrite textNodes_app, arrayLength_app, length_app.
    rewrite Nat.add_assoc, Z.add_assoc. reflexivity.
Qed.

Lemma virtual_insertRules_app start rules1 rules2 (this : VirtualTag.t) :
  VirtualTag.length this <= arrayLength (VirtualTag.rules this) ->
  0 <= start <= VirtualTag.length this ->
  exists this1 this2,
    VirtualTag.insertRules start rules1 this = (arrayLength rules1, this1)
    /\ VirtualTag.insertRules (start + arrayLength rules1) rules2 this1
       = (arrayLength rules2, this2)
    /\ VirtualTag.insertRules start (rules1 ++ rules2) this
       = (arrayLength rules1 + arrayLength rules2, this2).
Proof.
  intros Hsize Hstart. unfold VirtualTag.insertRules.
  pose proof (arrayLength_nonneg rules1) as Hn1.
  do 2 eexists. split; [| split].
  - by rewrite virtual_insertRules_loop_within by assumption.
  - apply virtual_insertRules_loop_within;
      cbn [VirtualTag.rules VirtualTag.length]; [lia |].
    unfold arrayLength in *.
    rewrite !length_app, length_take, length_drop. lia.
  - rewrite virtual_insertRules_loop_within by assumption.
    cbn [VirtualTag.rules VirtualTag.length].
    replace (Z.to_nat (start + arrayLength rules1))
      with (Z.to_nat start + length rules1)%nat
      by (unfold arrayLength; lia).
    rewrite attach_attach by (unfold arrayLength in *; lia).
    rewrite arrayLength_app, !Z.add_0_l, Z.add_assoc. reflexivity.
Qed.

End SplitBatches.

(** X12 — In every reachable state of every backend and for a start index
    [s] with [0 <= s <= length], a batch can be given in two parts:
    [insertRules(s, rules1)] followed by [insertRules(s + n1, rules2)],
    [n1] being what the first call returned, leaves the Tag in the state
    [insertRules(s, rules1 ++ rules2)] leaves it in, and the two returned
    counts add up to the count of the single call. *)
Theorem insertRules_in_two_parts engine tag start rules1 rules2 :
  reachable engine tag ->
  0 <= start <= Tag.length tag ->
  exists n1 tag1 n2 tag2,
    Tag.insertRules engine start rules1 tag = (Normal n1, tag1)
    /\ Tag.insertRules engine (start + n1) rules2 tag1 = (Normal n2, tag2)
    /\ Tag.insertRules engine start (rules1 ++ rules2) tag
       = (Normal (n1 + n2), tag2).
Proof.
  intros Hcons%reachable_consistent Hstart.
  destruct tag as [this | this | this]; simpl in Hcons, Hstart;
    cbn [Tag.insertRules].
  - destruct (cssom_insertRules_app engine start rules1 rules2 this)
      as [n1 [this1 [n2 [this2 [Hfirst [Hsecond Hboth]]]]]].
    exists n1, (Tag.CSSOM this1), n2, (Tag.CSSOM this2).
    cbn [Tag.insertRules]. by rewrite Hfirst, Hsecond, Hboth.
  - destruct (text_insertRules_app engine start rules1 rules2 this)
      as [this1 [this2 [Hfirst [Hsecond Hboth]]]]; [assumption | lia |].
    exists (arrayLength rules1), (Tag.Text this1), (arrayLength rules2),
      (Tag.Text this2).
    cbn [Tag.insertRules]. by rewrite Hfirst, Hsecond, Hboth.
  - destruct (virtual_insertRules_app start rules1 rules2 this)
      as [this1 [this2 [Hfirst [Hsecond Hboth]]]]; [lia | lia |].
    exists (arrayLength rules1), (Tag.Virtual this1), (arrayLength rules2),
      (Tag.Virtual this2).
    cbn [Tag.insertRules]. by rewrite Hfirst, Hsecond, Hboth.
Qed.

Lemma insertRules_in_two_parts_witness :
  let tag := run strictEngine [InsertRule 0 "z{}"]
               (makeTag (mkOptions false true None)) in
  exists n1 tag1 n2 tag2,
    Tag.insertRules strictEngine 1 ["a{}"; "not valid css"] tag
    = (Normal n1, tag1)
    /\ Tag.insertRules strictEngine (1 + n1) ["b{}"] tag1 = (Normal n2, tag2)
    /\ Tag.insertRules strictEngine 1 (["a{}"; "not valid css"] ++ ["b{}"]) tag
       = (Normal (n1 + n2), tag2).
Proof.
  intros tag.
  apply (insertRules_in_two_parts strictEngine tag 1).
  - exists (mkOptions false true None), [InsertRule 0 "z{}"]. reflexivity.
  - by compute_done.
Defined.

(** ** Every sequence of operations *)

(** X6 — In every state a sequence of operations leads to from a new Tag,
    whatever the indices of its calls, [length] is at most the number of
    stored rules; on the engine-backed and node-backed variants it is that
    number exactly (so never negative). *)
Theorem reachable_length_and_store engine tag :
  reachable engine tag ->
  Tag.length tag <= arrayLength (Tag.stored tag)
  /\ (Tag.variantOf tag <> Tag.ListBacked ->
      Tag.length tag = arrayLength (Tag.stored tag) /\ 0 <= Tag.length tag).
Proof.
  intros Hcons%reachable_consistent.
  split; [by apply consistent_length_le |].
  intros Hvariant. pose proof (arrayLength_nonneg (Tag.stored tag)).
  rewrite stored_size in *.
  destruct tag as [this | this | this]; simpl in *; [lia | lia | done].
Qed.

Lemma reachable_length_and_store_witness :
  let tag := run verbatimEngine
               [InsertRule 0 "a{}"; DeleteRule 5; DeleteRule (-1); GetRule 2]
               (makeTag (mkOptions false false None)) in
  Tag.length tag = arrayLength (Tag.stored tag).
Proof.
  intros tag.
  apply (reachable_length_and_store verbatimEngine tag).
  - exists (mkOptions false false None),
      [InsertRule 0 "a{}"; DeleteRule 5; DeleteRule (-1); GetRule 2].
    reflexivity.
  - discriminate.
Defined.

(** X7 — Along every sequence of operations applied to a new Tag of any
    backend, deletes outside the contract included, [length] at the end
    is the number of inserts that reported success minus the number of
    [deleteRule] calls that completed. *)
Theorem length_is_successes_minus_completed_deletes engine options ops :
  Tag.length (run engine ops (makeTag options))
  = insertedBy engine ops (makeTag options)
    - deletedBy engine ops (makeTag options).
Proof.
  assert (forall tag,
            consistent tag ->
            Tag.length (run engine ops tag)
            = Tag.length tag + insertedBy engine ops tag
              - deletedBy engine ops tag) as Hfrom.
  { induction ops as [| o rest IH]; intros tag Hcons; simpl; [lia |].
    destruct (apply_effect engine o tag Hcons) as [Hnext [Hstep _]].
    rewrite (IH _ Hnext). lia. }
  rewrite Hfrom by apply consistent_makeTag.
  assert (Tag.length (makeTag options) = 0) as ->; [| lia].
  unfold makeTag. destruct (isServer options); [reflexivity |].
  by destruct (useCSSOMInjection options).
Qed.

(** X10 — In every reachable state of every backend, [insertRules] with an
    empty list returns 0 and leaves the Tag as it was, whatever the start
    index. *)
Theorem insertRules_of_nothing engine tag start :
  reachable engine tag ->
  Tag.insertRules engine start [] tag = (Normal 0, tag).
Proof.
  intros Hcons%reachable_consistent.
  destruct tag as [this | this | this]; cbn [Tag.insertRules];
    [reflexivity | | reflexivity].
  rewrite text_insertRules by assumption. cbn [textNodes length].
  rewrite app_nil_r, Nat.add_0_r. cbn [app]. rewrite take_drop.
  destruct ((0 <=? start) && _); destruct this; simpl;
    unfold arrayLength; simpl; do 3 f_equal; lia.
Qed.

Lemma insertRules_of_nothing_witness :
  let tag := run verbatimEngine [InsertRule 0 "a{}"]
               (makeTag (mkOptions false false None)) in
  Tag.insertRules verbatimEngine 9 [] tag = (Normal 0, tag).
Proof.
  intros tag.
  apply (insertRules_of_nothing verbatimEngine tag 9).
  exists (mkOptions false false None), [InsertRule 0 "a{}"]. reflexivity.
Defined.

(** ** A batch of one *)

(** X15 — In every reachable state, a batch of one rule is a single
    insert: [insertRules(index, [rule])] leaves the Tag as
    [insertRule(index, rule)] does and returns 1 or 0 as that one returns
    true or false.  On the node-backed variant this holds for
    [0 <= index <= length] only. *)
Theorem insertRules_of_one engine tag index rule :
  reachable engine tag ->
  Tag.variantOf tag <> Tag.NodeBacked \/ 0 <= index <= Tag.length tag ->
  exists ok tag',
    Tag.insertRule engine index rule tag = (Normal ok, tag')
    /\ Tag.insertRules engine index [rule] tag
       = (Normal (if ok then 1 else 0), tag').
Proof.
  intros Hcons%reachable_consistent Hindex.
  destruct tag as [this | this | this];
    cbn [Tag.insertRule Tag.insertRules].
  - unfold CSSOMTag.insertRules. cbn [CSSOMTag.insertRules_loop].
    destruct (CSSOMTag.insertRule engine index rule this) as [[] this'];
      eauto.
  - destruct Hindex as [? | Hindex]; [done |]. simpl in Hindex.
    rewrite text_insertRule_accepts, text_insertRules_within by assumption.
    cbn [length]. rewrite Nat.add_1_r.
    exists true. eexists. split; reflexivity.
  - unfold VirtualTag.insertRules. cbn [VirtualTag.insertRules_loop].
    destruct (VirtualTag.insertRule index rule this) as [[] this']; eauto.
Qed.

Lemma insertRules_of_one_witness :
  let tag := makeTag (mkOptions false true None) in
  exists ok tag',
    Tag.insertRule strictEngine 0 "not valid css" tag = (Normal ok, tag')
    /\ Tag.insertRules strictEngine 0 ["not valid css"] tag
       = (Normal (if ok then 1 else 0), tag').
Proof.
  intros tag.
  apply (insertRules_of_one strictEngine tag 0 "not valid css").
  - exists (mkOptions false true None), []. reflexivity.
  - left. discriminate.
Defined.
